(** * Parallel-Pipelines: the software-pipelined examples and their serial
      references

    A shallow embedding of [common.hpp], [main2.cpp], [main3.cpp] and
    [main4.cpp].  Strings are [string]; a [vector<string>] is a [list string];
    the [uint] loop counter is a [Z] whose increment wraps at 2^32, the
    [int] counter of [gen_vec_string] is a [Z] whose overflow is undefined
    behaviour, and [size_t] arithmetic wraps at 2^64 (LP64 data model).

    The body of each [parallel] function is written in a small state-and-error
    monad over a machine that holds the buffer variables, the futures created
    by [std::async], the lines written to [cout], a log of the main thread's
    actions round by round, and a scheduling oracle that decides at which
    points the launched tasks complete.

    The calls to [this_thread::sleep_for] and the line printed from
    [Timer::elapsed] depend on wall-clock time only and are left out. *)

From Stdlib Require Import ZArith String List Lia Bool DecimalString.
From Stdlib Require DecimalPos DecimalZ Finite.
Import ListNotations.
Local Open Scope Z_scope.

(* ================================================================== *)
(** ** Outcomes and the state-and-error monad *)

(** A run either finishes, hits undefined behaviour (an out-of-range
    [operator[]], a signed overflow, [get] on a future without a task) or
    is cut off by the fuel of the loop. *)
Inductive outcome (A : Type) : Type :=
| Done (a : A)
| Fault
| OutOfFuel.
Arguments Done {A} a.
Arguments Fault {A}.
Arguments OutOfFuel {A}.

Definition M (St A : Type) : Type := St -> outcome (A * St).

Definition ret {St A} (a : A) : M St A := fun s => Done (a, s).

Definition bind {St A B} (c : M St A) (k : A -> M St B) : M St B :=
  fun s =>
    match c s with
    | Done (a, s') => k a s'
    | Fault => Fault
    | OutOfFuel => OutOfFuel
    end.

Definition lift {St A} (o : outcome A) : M St A :=
  fun s =>
    match o with
    | Done a => Done (a, s)
    | Fault => Fault
    | OutOfFuel => OutOfFuel
    end.

Declare Scope pipe_scope.
Delimit Scope pipe_scope with pipe.
Notation "x <- c ;; k" := (bind c (fun x => k))
  (at level 61, c at next level, right associativity) : pipe_scope.
Notation "c ;; k" := (bind c (fun _ => k))
  (at level 61, right associativity) : pipe_scope.
Local Open Scope pipe_scope.

(** [for (T i = i0; cond(i); i++) body(i)] with an explicit increment
    [next] for the counter type [T]. *)
Fixpoint for_loop {St} (fuel : nat) (cond : Z -> bool) (next : Z -> outcome Z)
    (body : Z -> M St unit) (i : Z) : M St unit :=
  match fuel with
  | O => fun _ => OutOfFuel
  | S fuel' =>
      if cond i
      then body i ;; i' <- lift (next i) ;; for_loop fuel' cond next body i'
      else ret tt
  end.

(* ================================================================== *)
(** ** Machine integers and vectors *)

Definition UINT_MAX : Z := 4294967295.
Definition INT_MAX : Z := 2147483647.
Definition SIZE_MAX : Z := 18446744073709551615.

(** [i++] on a [uint]: wraps around. *)
Definition uint_incr (i : Z) : outcome Z := Done ((i + 1) mod (UINT_MAX + 1)).

(** [i++] on an [int]: overflow is undefined behaviour. *)
Definition int_incr (i : Z) : outcome Z :=
  if i + 1 <=? INT_MAX then Done (i + 1) else Fault.

(** [a + b] on [size_t]. *)
Definition size_add (a b : Z) : Z := (a + b) mod (SIZE_MAX + 1).

(** [vec.size()] *)
Definition size (vec : list string) : Z := Z.of_nat (length vec).

(** [vec[i]]: undefined behaviour out of range. *)
Definition at_ {St} (vec : list string) (i : Z) : M St string :=
  fun s =>
    if i <? 0 then Fault
    else match nth_error vec (Z.to_nat i) with
         | Some v => Done (v, s)
         | None => Fault
         end.

(* ================================================================== *)
(** ** common.hpp *)

Module Common.

Local Open Scope string_scope.

Definition no_data : string := "--".

Definition F (x : string) : string := "F(" ++ x ++ ")".

Definition G (x : string) : string := "G(" ++ x ++ ")".

Definition H (x : string) : string := "H(" ++ x ++ ")".

Definition sum (x y : string) : string := x ++ " + " ++ y.

(** [std::to_string] on an integer: its decimal digits. *)
Definition to_string (i : Z) : string := NilZero.string_of_int (Z.to_int i).

(** [vec.push_back(v)] *)
Definition push_back (v : string) : M (list string) unit :=
  fun vec => Done (tt, (vec ++ [v])%list).

Definition gen_vec_string (fuel : nat) (n : Z) (prefix : string)
    : outcome (list string) :=
  match
    for_loop fuel (fun i => (i <? n)%Z) int_incr
      (fun i => push_back (prefix ++ "_" ++ to_string i)) 0 []
  with
  | Done (_, vec) => Done vec
  | Fault => Fault
  | OutOfFuel => OutOfFuel
  end.

End Common.
Import Common.

(* ================================================================== *)
(** ** The machine of the [serial] and [parallel] functions *)

(** The buffer variables of the three programs. *)
Inductive buffer : Type := F_buffer | G_buffer | F_G_sum_buffer.

(** The futures [F_future], [G_future] and [H_future]; the task behind
    each runs the function of the same letter. *)
Inductive future : Type := F_future | G_future | H_future.

Definition future_fn (f : future) : string -> string :=
  match f with
  | F_future => F
  | G_future => G
  | H_future => H
  end.

(** The shared state of a future: no task, a task launched on a copy of its
    argument and not finished, or a finished task with its result. *)
Inductive task : Type :=
| NoTask
| Pending (arg : string)
| Ready (v : string).

(** What the main thread does, in program order. *)
Inductive event : Type :=
| EvLocal (name : string) (v : string)
| EvRead (b : buffer) (v : string)
| EvWrite (b : buffer) (v : string)
| EvAsync (f : future) (arg : string)
| EvGet (f : future) (v : string)
| EvPrint (parts : list string).

Record machine : Type := mkMachine {
  bufs : buffer -> option string;
  futs : future -> task;
  sched : list (list future);
  cout : list string;
  rounds : list (list event);
  cur : list event
}.

Definition buffer_eqb (a b : buffer) : bool :=
  match a, b with
  | F_buffer, F_buffer | G_buffer, G_buffer
  | F_G_sum_buffer, F_G_sum_buffer => true
  | _, _ => false
  end.

Definition future_eqb (a b : future) : bool :=
  match a, b with
  | F_future, F_future | G_future, G_future | H_future, H_future => true
  | _, _ => false
  end.

Definition set_buf (bs : buffer -> option string) (b : buffer) (v : string)
    : buffer -> option string :=
  fun b' => if buffer_eqb b b' then Some v else bs b'.

Definition set_fut (fs : future -> task) (f : future) (t : task)
    : future -> task :=
  fun f' => if future_eqb f f' then t else fs f'.

Definition emit (e : event) : M machine unit :=
  fun m => Done (tt, mkMachine (bufs m) (futs m) (sched m) (cout m)
                       (rounds m) (cur m ++ [e])).

(** A pending task runs to completion on its own copy of the argument. *)
Definition complete (fs : future -> task) (f : future) : future -> task :=
  match fs f with
  | Pending arg => set_fut fs f (Ready (future_fn f arg))
  | _ => fs
  end.

(** A point where other threads may make progress: the oracle names the
    tasks that finish here. *)
Definition yield : M machine unit :=
  fun m => Done (tt, mkMachine (bufs m)
                       (fold_left complete (hd [] (sched m)) (futs m))
                       (tl (sched m)) (cout m) (rounds m) (cur m)).

(** [string b(v);] *)
Definition declare (b : buffer) (v : string) : M machine unit :=
  fun m => Done (tt, mkMachine (set_buf (bufs m) b v) (futs m) (sched m)
                       (cout m) (rounds m) (cur m)).

(** Reading the buffer variable [b]. *)
Definition read (b : buffer) : M machine string :=
  fun m =>
    match bufs m b with
    | Some v => emit (EvRead b v) ;; ret v
    | None => fun _ => Fault
    end m.

(** [b = v;] *)
Definition write (b : buffer) (v : string) : M machine unit :=
  fun m =>
    match bufs m b with
    | Some _ =>
        Done (tt, mkMachine (set_buf (bufs m) b v) (futs m) (sched m)
                    (cout m) (rounds m) (cur m ++ [EvWrite b v]))
    | None => Fault
    end.

(** [auto f = async(fn, arg);]: the argument is copied in the calling
    thread; the task may run at any time from here on. *)
Definition async (f : future) (arg : string) : M machine unit :=
  (fun m => Done (tt, mkMachine (bufs m) (set_fut (futs m) f (Pending arg))
                        (sched m) (cout m) (rounds m)
                        (cur m ++ [EvAsync f arg]))) ;;
  yield.

(** The result a future delivers once its task has run. *)
Definition await (fs : future -> task) (f : future) : option string :=
  match fs f with
  | NoTask => None
  | Pending arg => Some (future_fn f arg)
  | Ready v => Some v
  end.

(** [f.get()]: blocks until the task has finished (a deferred task runs
    now) and hands over the result; the future is empty afterwards. *)
Definition get (f : future) : M machine string :=
  yield ;;
  (fun m =>
     match await (futs m) f with
     | Some v =>
         Done (v, mkMachine (bufs m) (set_fut (futs m) f NoTask) (sched m)
                    (cout m) (rounds m) (cur m ++ [EvGet f v]))
     | None => Fault
     end).

(** [string name = c;] *)
Definition local (name : string) (c : M machine string) : M machine string :=
  v <- c ;; emit (EvLocal name v) ;; ret v.

(** [cout << p1 << ... << pn << endl;]: one line made of the operands. *)
Definition print (parts : list string) : M machine unit :=
  fun m => Done (tt, mkMachine (bufs m) (futs m) (sched m)
                       (cout m ++ [String.concat "" parts]) (rounds m)
                       (cur m ++ [EvPrint parts])).

(** One iteration of the loop: its events form one round of the log. *)
Definition in_round (body : M machine unit) : M machine unit :=
  (fun m => Done (tt, mkMachine (bufs m) (futs m) (sched m) (cout m)
                        (rounds m) [])) ;;
  body ;;
  (fun m => Done (tt, mkMachine (bufs m) (futs m) (sched m) (cout m)
                        (rounds m ++ [cur m]) [])).

Definition init_machine (oracle : list (list future)) : machine :=
  mkMachine (fun _ => None) (fun _ => NoTask) oracle [] [] [].

(** What a run leaves behind: the rounds of the log and the lines printed. *)
Record output : Type := mkOutput {
  out_rounds : list (list event);
  out_cout : list string
}.

Definition run (prog : M machine unit) (oracle : list (list future))
    : outcome output :=
  match prog (init_machine oracle) with
  | Done (_, m) => Done (mkOutput (rounds m) (cout m))
  | Fault => Fault
  | OutOfFuel => OutOfFuel
  end.

(* ================================================================== *)
(** ** main2.cpp: y[i] = H(G(F(x[i]))) *)

Module Main2.

Local Open Scope string_scope.

Definition serial_line (i : Z) (y_i : string) : list string :=
  ["Step " ++ to_string i ++ ":  Thread 1: "; y_i].

Definition serial_body (x_vec : list string) (i : Z) : M machine unit :=
  x_i <- local "x_i" (at_ x_vec i) ;;
  y_i <- local "y_i" (ret (H (G (F x_i)))) ;;
  print (serial_line i y_i).

Definition serial (fuel : nat) (x_vec : list string) : M machine unit :=
  print ["Serial:"] ;;
  for_loop fuel (fun i => (i <? size x_vec)%Z) uint_incr
    (fun i => in_round (serial_body x_vec i)) 0.

Definition parallel_line (i : Z) (F_result G_result H_result : string)
    : list string :=
  ["Step " ++ to_string i ++ ":  Thread 1: "; F_result;
   "  Thread 2: "; G_result; "  Thread 3: "; H_result].

Definition parallel_body (x_vec : list string) (i : Z) : M machine unit :=
  x_i <- local "x_i" (if (i <? size x_vec)%Z then at_ x_vec i
                      else ret no_data) ;;
  async F_future x_i ;;
  F_buffer_now <- read F_buffer ;;
  async G_future F_buffer_now ;;
  G_buffer_now <- read G_buffer ;;
  async H_future G_buffer_now ;;
  F_result <- get F_future ;;
  G_result <- get G_future ;;
  H_result <- get H_future ;;
  write F_buffer F_result ;;
  write G_buffer G_result ;;
  print (parallel_line i F_result G_result H_result).

Definition parallel (fuel : nat) (x_vec : list string) : M machine unit :=
  print ["Parallel:"] ;;
  declare F_buffer no_data ;;
  declare G_buffer no_data ;;
  for_loop fuel (fun i => (i <? size_add (size x_vec) 2)%Z) uint_incr
    (fun i => in_round (parallel_body x_vec i)) 0.

(** [main]: the input comes from [gen_vec_string]; the serial run comes
    first, then the parallel one. *)
Definition main (fuel : nat) (oracle : list (list future))
    : outcome (output * output) :=
  match gen_vec_string fuel 10 "x" with
  | Done x_vec =>
      match run (serial fuel x_vec) oracle,
            run (parallel fuel x_vec) oracle with
      | Done s, Done p => Done (s, p)
      | Fault, _ | _, Fault => Fault
      | _, _ => OutOfFuel
      end
  | Fault => Fault
  | OutOfFuel => OutOfFuel
  end.

End Main2.


(* ================================================================== *)
(** ** main3.cpp: y[i] = F(x[i]) + G(F(x[i])) *)

Module Main3.

Local Open Scope string_scope.

Definition serial_line (i : Z) (y_i : string) : list string :=
  ["Step " ++ to_string i ++ ":  Thread 1: "; y_i].

Definition serial_body (x_vec : list string) (i : Z) : M machine unit :=
  x_i <- local "x_i" (at_ x_vec i) ;;
  F_x_i <- local "F_x_i" (ret (F x_i)) ;;
  y_i <- local "y_i" (ret (sum F_x_i (G F_x_i))) ;;
  print (serial_line i y_i).

Definition serial (fuel : nat) (x_vec : list string) : M machine unit :=
  print ["Serial:"] ;;
  for_loop fuel (fun i => (i <? size x_vec)%Z) uint_incr
    (fun i => in_round (serial_body x_vec i)) 0.

Definition parallel_line (i : Z) (F_result G_result y : string)
    : list string :=
  ["Step " ++ to_string i ++ ":  Thread 1: "; F_result;
   "  Thread 2: "; G_result; "  Thread Main: "; y].

Definition parallel_body (x_vec : list string) (i : Z) : M machine unit :=
  x_i <- local "x_i" (if (i <? size x_vec)%Z then at_ x_vec i
                      else ret no_data) ;;
  async F_future x_i ;;
  F_buffer_now <- read F_buffer ;;
  async G_future F_buffer_now ;;
  F_result <- get F_future ;;
  G_result <- get G_future ;;
  F_buffer_prev <- read F_buffer ;;
  y <- local "y" (ret (sum F_buffer_prev G_result)) ;;
  write F_buffer F_result ;;
  print (parallel_line i F_result G_result y).

Definition parallel (fuel : nat) (x_vec : list string) : M machine unit :=
  print ["Parallel:"] ;;
  declare F_buffer no_data ;;
  for_loop fuel (fun i => (i <? size_add (size x_vec) 1)%Z) uint_incr
    (fun i => in_round (parallel_body x_vec i)) 0.

(** [main]: the input comes from [gen_vec_string]; the serial run comes
    first, then the parallel one. *)
Definition main (fuel : nat) (oracle : list (list future))
    : outcome (output * output) :=
  match gen_vec_string fuel 10 "x" with
  | Done x_vec =>
      match run (serial fuel x_vec) oracle,
            run (parallel fuel x_vec) oracle with
      | Done s, Done p => Done (s, p)
      | Fault, _ | _, Fault => Fault
      | _, _ => OutOfFuel
      end
  | Fault => Fault
  | OutOfFuel => OutOfFuel
  end.

End Main3.

(* ================================================================== *)
(** ** main4.cpp: y[i] = H(F(x[i]) + G(z[i])) *)

Module Main4.

Local Open Scope string_scope.

Definition serial_line (i : Z) (y_i : string) : list string :=
  ["Step " ++ to_string i ++ ":  Thread 1: "; y_i].

Definition serial_body (x_vec z_vec : list string) (i : Z)
    : M machine unit :=
  x_i <- local "x_i" (at_ x_vec i) ;;
  z_i <- local "z_i" (at_ z_vec i) ;;
  y_i <- local "y_i" (ret (H (sum (F x_i) (G z_i)))) ;;
  print (serial_line i y_i).

Definition serial (fuel : nat) (x_vec z_vec : list string)
    : M machine unit :=
  print ["Serial:"] ;;
  for_loop fuel (fun i => (i <? size x_vec)%Z) uint_incr
    (fun i => in_round (serial_body x_vec z_vec i)) 0.

Definition parallel_line (i : Z) (F_result G_result H_result : string)
    : list string :=
  ["Step " ++ to_string i ++ ":  Thread 1: "; F_result;
   "  Thread 2: "; G_result; "  Thread 3: "; H_result].

Definition parallel_body (x_vec z_vec : list string) (i : Z)
    : M machine unit :=
  x_i <- local "x_i" (if (i <? size x_vec)%Z then at_ x_vec i
                      else ret no_data) ;;
  z_i <- local "z_i" (if (i <? size z_vec)%Z then at_ z_vec i
                      else ret no_data) ;;
  async F_future x_i ;;
  async G_future z_i ;;
  F_G_sum_buffer_now <- read F_G_sum_buffer ;;
  async H_future F_G_sum_buffer_now ;;
  F_result <- get F_future ;;
  G_result <- get G_future ;;
  H_result <- get H_future ;;
  write F_G_sum_buffer (sum F_result G_result) ;;
  print (parallel_line i F_result G_result H_result).

Definition parallel (fuel : nat) (x_vec z_vec : list string)
    : M machine unit :=
  print ["Parallel:"] ;;
  declare F_G_sum_buffer no_data ;;
  for_loop fuel (fun i => (i <? size_add (size x_vec) 1)%Z) uint_incr
    (fun i => in_round (parallel_body x_vec z_vec i)) 0.

(** [main]: both streams come from [gen_vec_string]; the serial run comes
    first, then the parallel one. *)
Definition main (fuel : nat) (oracle : list (list future))
    : outcome (output * output) :=
  match gen_vec_string fuel 10 "x", gen_vec_string fuel 10 "z" with
  | Done x_vec, Done z_vec =>
      match run (serial fuel x_vec z_vec) oracle,
            run (parallel fuel x_vec z_vec) oracle with
      | Done s, Done p => Done (s, p)
      | Fault, _ | _, Fault => Fault
      | _, _ => OutOfFuel
      end
  | Fault, _ | _, Fault => Fault
  | _, _ => OutOfFuel
  end.

End Main4.


(* ================================================================== *)
(** ** Observing a round of the log *)

(** The results delivered by [f.get()] in a round. *)
Definition got (f : future) (evs : list event) : list string :=
  flat_map (fun e => match e with
                     | EvGet f' v => if future_eqb f f' then [v] else []
                     | _ => []
                     end) evs.

(** The arguments the task of [f] was launched on in a round. *)
Definition launched (f : future) (evs : list event) : list string :=
  flat_map (fun e => match e with
                     | EvAsync f' v => if future_eqb f f' then [v] else []
                     | _ => []
                     end) evs.

(** The values read from the buffer [b] in a round. *)
Definition reads (b : buffer) (evs : list event) : list string :=
  flat_map (fun e => match e with
                     | EvRead b' v => if buffer_eqb b b' then [v] else []
                     | _ => []
                     end) evs.

(** The values written to the buffer [b] in a round. *)
Definition writes (b : buffer) (evs : list event) : list string :=
  flat_map (fun e => match e with
                     | EvWrite b' v => if buffer_eqb b b' then [v] else []
                     | _ => []
                     end) evs.

(** The values the local variable [name] was initialised with in a round. *)
Definition locals (name : string) (evs : list event) : list string :=
  flat_map (fun e => match e with
                     | EvLocal name' v =>
                         if String.eqb name name' then [v] else []
                     | _ => []
                     end) evs.

(** The operands of the lines printed in a round. *)
Definition printed (evs : list event) : list (list string) :=
  flat_map (fun e => match e with EvPrint l => [l] | _ => [] end) evs.

Definition is_read (b : buffer) (e : event) : bool :=
  match e with EvRead b' _ => buffer_eqb b b' | _ => false end.

Definition is_write (b : buffer) (e : event) : bool :=
  match e with EvWrite b' _ => buffer_eqb b b' | _ => false end.

Definition is_get (e : event) : bool :=
  match e with EvGet _ _ => true | _ => false end.

(** In [evs], every event picked by [p] comes before every event picked
    by [q]. *)
Definition precedes (p q : event -> bool) (evs : list event) : Prop :=
  forall i j a b,
    nth_error evs i = Some a -> nth_error evs j = Some b ->
    p a = true -> q b = true -> (i < j)%nat.

(** The same, as a check. *)
Fixpoint precedesb (p q : event -> bool) (evs : list event) : bool :=
  match evs with
  | [] => true
  | e :: rest =>
      (negb (q e) || negb (existsb p (e :: rest))) && precedesb p q rest
  end.

(** The external input of round [r]: the element when there is one, the
    sentinel beyond the end. *)
Definition input (vec : list string) (r : nat) : string := nth r vec no_data.

(** A value built from the sentinel alone. *)
Inductive sentinel_only : string -> Prop :=
| so_no_data : sentinel_only no_data
| so_F s : sentinel_only s -> sentinel_only (F s)
| so_G s : sentinel_only s -> sentinel_only (G s)
| so_H s : sentinel_only s -> sentinel_only (H s)
| so_sum s t : sentinel_only s -> sentinel_only t -> sentinel_only (sum s t).

(* ================================================================== *)
(** ** Properties of rounds and runs *)

(** [v] is a final-stage result of the round and an operand of a line the
    round prints. *)
Definition emits (final : list event -> list string) (round : list event)
    (v : string) : Prop :=
  In v (final round) /\ exists parts, In parts (printed round) /\ In v parts.

(** No final-stage result that reaches the output is built from the
    sentinel alone. *)
Definition sentinel_non_leakage (final : list event -> list string)
    (out : output) : Prop :=
  forall round v,
    In round (out_rounds out) -> emits final round v -> ~ sentinel_only v.

(** Every task launched in the round is joined in the round. *)
Definition all_joined (round : list event) : Prop :=
  forall f, length (got f round) = length (launched f round).

(** The buffer [b] in one round: written once, after every join and after
    its reads, and read [n_reads] times. *)
Definition slot_discipline (n_reads : nat) (b : buffer) (round : list event)
    : Prop :=
  length (writes b round) = 1%nat
  /\ length (reads b round) = n_reads
  /\ all_joined round
  /\ precedes is_get (is_write b) round
  /\ precedes (is_read b) (is_write b) round.

(** The round before round [r], when there is one. *)
Definition previous_round (all : list (list event)) (r : nat)
    : option (list event) :=
  match r with
  | O => None
  | S r' => nth_error all r'
  end.

(** The task of [f] is launched on what the buffer [b] held when the round
    began: the value written in the previous round, or the sentinel in the
    first round; and every read of [b] in the round sees that value. *)
Definition fed_from (b : buffer) (f : future) (prev : option (list event))
    (round : list event) : Prop :=
  exists v,
    match prev with
    | None => v = no_data
    | Some p => writes b p = [v]
    end
    /\ launched f round = [v]
    /\ reads b round <> []
    /\ forall w, In w (reads b round) -> w = v.

(** The results left once the [L] fill-up rounds are set aside. *)
Definition results (L : nat) (out : output) : list (list event) :=
  skipn L (out_rounds out).

(* ================================================================== *)
(** ** The rounds in closed form *)

(** The content of [F_buffer] at the start of round [r]. *)
Definition F_buffer_at (x_vec : list string) (r : nat) : string :=
  match r with
  | O => no_data
  | S r' => F (input x_vec r')
  end.

Module Rounds2.

(** The content of [G_buffer] at the start of round [r]. *)
Definition G_buffer_at (x_vec : list string) (r : nat) : string :=
  match r with
  | O => no_data
  | S r' => G (F_buffer_at x_vec r')
  end.

Definition line (x_vec : list string) (r : nat) : list string :=
  Main2.parallel_line (Z.of_nat r) (F (input x_vec r))
    (G (F_buffer_at x_vec r)) (H (G_buffer_at x_vec r)).

Definition parallel_round (x_vec : list string) (r : nat) : list event :=
  [ EvLocal "x_i" (input x_vec r);
    EvAsync F_future (input x_vec r);
    EvRead F_buffer (F_buffer_at x_vec r);
    EvAsync G_future (F_buffer_at x_vec r);
    EvRead G_buffer (G_buffer_at x_vec r);
    EvAsync H_future (G_buffer_at x_vec r);
    EvGet F_future (F (input x_vec r));
    EvGet G_future (G (F_buffer_at x_vec r));
    EvGet H_future (H (G_buffer_at x_vec r));
    EvWrite F_buffer (F (input x_vec r));
    EvWrite G_buffer (G (F_buffer_at x_vec r));
    EvPrint (line x_vec r) ].

Definition parallel_output (x_vec : list string) : output :=
  let n := (length x_vec + 2)%nat in
  mkOutput (map (parallel_round x_vec) (seq 0 n))
           ("Parallel:"%string
            :: map (fun r => String.concat "" (line x_vec r)) (seq 0 n)).

Definition serial_value (x_vec : list string) (r : nat) : string :=
  H (G (F (input x_vec r))).

Definition serial_round (x_vec : list string) (r : nat) : list event :=
  [ EvLocal "x_i" (input x_vec r);
    EvLocal "y_i" (serial_value x_vec r);
    EvPrint (Main2.serial_line (Z.of_nat r) (serial_value x_vec r)) ].

Definition serial_output (x_vec : list string) : output :=
  let n := length x_vec in
  mkOutput (map (serial_round x_vec) (seq 0 n))
           ("Serial:"%string
            :: map (fun r => String.concat ""
                               (Main2.serial_line (Z.of_nat r)
                                  (serial_value x_vec r))) (seq 0 n)).

(** What holds of the machine when round [r] of [parallel] starts. *)
Record inv (x_vec : list string) (r : nat) (m : machine) : Prop := mkInv {
  inv_F : bufs m F_buffer = Some (F_buffer_at x_vec r);
  inv_G : bufs m G_buffer = Some (G_buffer_at x_vec r);
  inv_rounds : rounds m = map (parallel_round x_vec) (seq 0 r);
  inv_cout :
    cout m = ("Parallel:"%string
              :: map (fun r => String.concat "" (line x_vec r)) (seq 0 r))%list
}.

(** What holds of the machine when round [r] of [serial] starts. *)
Record serial_inv (x_vec : list string) (r : nat) (m : machine) : Prop :=
  mkSerialInv {
  sinv_rounds : rounds m = map (serial_round x_vec) (seq 0 r);
  sinv_cout :
    cout m = ("Serial:"%string
              :: map (fun r => String.concat ""
                                 (Main2.serial_line (Z.of_nat r)
                                    (serial_value x_vec r))) (seq 0 r))%list
}.

End Rounds2.

Module Rounds3.

Definition final (x_vec : list string) (r : nat) : string :=
  sum (F_buffer_at x_vec r) (G (F_buffer_at x_vec r)).

Definition line (x_vec : list string) (r : nat) : list string :=
  Main3.parallel_line (Z.of_nat r) (F (input x_vec r))
    (G (F_buffer_at x_vec r)) (final x_vec r).

Definition parallel_round (x_vec : list string) (r : nat) : list event :=
  [ EvLocal "x_i" (input x_vec r);
    EvAsync F_future (input x_vec r);
    EvRead F_buffer (F_buffer_at x_vec r);
    EvAsync G_future (F_buffer_at x_vec r);
    EvGet F_future (F (input x_vec r));
    EvGet G_future (G (F_buffer_at x_vec r));
    EvRead F_buffer (F_buffer_at x_vec r);
    EvLocal "y" (final x_vec r);
    EvWrite F_buffer (F (input x_vec r));
    EvPrint (line x_vec r) ].

Definition parallel_output (x_vec : list string) : output :=
  let n := (length x_vec + 1)%nat in
  mkOutput (map (parallel_round x_vec) (seq 0 n))
           ("Parallel:"%string
            :: map (fun r => String.concat "" (line x_vec r)) (seq 0 n)).

Record inv (x_vec : list string) (r : nat) (m : machine) : Prop := mkInv {
  inv_F : bufs m F_buffer = Some (F_buffer_at x_vec r);
  inv_rounds : rounds m = map (parallel_round x_vec) (seq 0 r);
  inv_cout :
    cout m = ("Parallel:"%string
              :: map (fun r => String.concat "" (line x_vec r)) (seq 0 r))%list
}.

Definition serial_value (x_vec : list string) (r : nat) : string :=
  sum (F (input x_vec r)) (G (F (input x_vec r))).

Definition serial_round (x_vec : list string) (r : nat) : list event :=
  [ EvLocal "x_i" (input x_vec r);
    EvLocal "F_x_i" (F (input x_vec r));
    EvLocal "y_i" (serial_value x_vec r);
    EvPrint (Main3.serial_line (Z.of_nat r) (serial_value x_vec r)) ].

Definition serial_output (x_vec : list string) : output :=
  let n := length x_vec in
  mkOutput (map (serial_round x_vec) (seq 0 n))
           ("Serial:"%string
            :: map (fun r => String.concat ""
                               (Main3.serial_line (Z.of_nat r)
                                  (serial_value x_vec r))) (seq 0 n)).

(** What holds of the machine when round [r] of [serial] starts. *)
Record serial_inv (x_vec : list string) (r : nat) (m : machine) : Prop :=
  mkSerialInv {
  sinv_rounds : rounds m = map (serial_round x_vec) (seq 0 r);
  sinv_cout :
    cout m = ("Serial:"%string
              :: map (fun r => String.concat ""
                                 (Main3.serial_line (Z.of_nat r)
                                    (serial_value x_vec r))) (seq 0 r))%list
}.

End Rounds3.

Module Rounds4.

(** The content of [F_G_sum_buffer] at the start of round [r]. *)
Definition sum_buffer_at (x_vec z_vec : list string) (r : nat) : string :=
  match r with
  | O => no_data
  | S r' => sum (F (input x_vec r')) (G (input z_vec r'))
  end.

Definition line (x_vec z_vec : list string) (r : nat) : list string :=
  Main4.parallel_line (Z.of_nat r) (F (input x_vec r)) (G (input z_vec r))
    (H (sum_buffer_at x_vec z_vec r)).

Definition parallel_round (x_vec z_vec : list string) (r : nat)
    : list event :=
  [ EvLocal "x_i" (input x_vec r);
    EvLocal "z_i" (input z_vec r);
    EvAsync F_future (input x_vec r);
    EvAsync G_future (input z_vec r);
    EvRead F_G_sum_buffer (sum_buffer_at x_vec z_vec r);
    EvAsync H_future (sum_buffer_at x_vec z_vec r);
    EvGet F_future (F (input x_vec r));
    EvGet G_future (G (input z_vec r));
    EvGet H_future (H (sum_buffer_at x_vec z_vec r));
    EvWrite F_G_sum_buffer (sum (F (input x_vec r)) (G (input z_vec r)));
    EvPrint (line x_vec z_vec r) ].

Definition parallel_output (x_vec z_vec : list string) : output :=
  let n := (length x_vec + 1)%nat in
  mkOutput (map (parallel_round x_vec z_vec) (seq 0 n))
           ("Parallel:"%string
            :: map (fun r => String.concat "" (line x_vec z_vec r)) (seq 0 n)).

Definition serial_value (x_vec z_vec : list string) (r : nat) : string :=
  H (sum (F (input x_vec r)) (G (input z_vec r))).

Definition serial_round (x_vec z_vec : list string) (r : nat)
    : list event :=
  [ EvLocal "x_i" (input x_vec r);
    EvLocal "z_i" (input z_vec r);
    EvLocal "y_i" (serial_value x_vec z_vec r);
    EvPrint (Main4.serial_line (Z.of_nat r) (serial_value x_vec z_vec r)) ].

Definition serial_output (x_vec z_vec : list string) : output :=
  let n := length x_vec in
  mkOutput (map (serial_round x_vec z_vec) (seq 0 n))
           ("Serial:"%string
            :: map (fun r => String.concat ""
                               (Main4.serial_line (Z.of_nat r)
                                  (serial_value x_vec z_vec r))) (seq 0 n)).

Record inv (x_vec z_vec : list string) (r : nat) (m : machine) : Prop :=
  mkInv {
  inv_S : bufs m F_G_sum_buffer = Some (sum_buffer_at x_vec z_vec r);
  inv_rounds : rounds m = map (parallel_round x_vec z_vec) (seq 0 r);
  inv_cout :
    cout m = ("Parallel:"%string
              :: map (fun r => String.concat "" (line x_vec z_vec r))
                     (seq 0 r))%list
}.

Record serial_inv (x_vec z_vec : list string) (r : nat) (m : machine)
    : Prop := mkSerialInv {
  sinv_rounds : rounds m = map (serial_round x_vec z_vec) (seq 0 r);
  sinv_cout :
    cout m = ("Serial:"%string
              :: map (fun r => String.concat ""
                                 (Main4.serial_line (Z.of_nat r)
                                    (serial_value x_vec z_vec r)))
                     (seq 0 r))%list
}.

End Rounds4.

(* ================================================================== *)
(** ** Loops *)

Section ForLoop.

Context {St : Type}.
Variables (cond : Z -> bool) (next : Z -> outcome Z) (body : Z -> M St unit).
Variable n : nat.
Variable Inv : nat -> St -> Prop.

Hypothesis cond_below : forall r, (r < n)%nat -> cond (Z.of_nat r) = true.
Hypothesis cond_at : cond (Z.of_nat n) = false.
Hypothesis next_below :
  forall r, (r < n)%nat -> next (Z.of_nat r) = Done (Z.of_nat (S r)).
Hypothesis body_step :
  forall r s, (r < n)%nat -> Inv r s ->
    exists s', body (Z.of_nat r) s = Done (tt, s') /\ Inv (S r) s'.

Lemma for_loop_from (k : nat) :
  forall r fuel s,
    (r + k = n)%nat -> (k < fuel)%nat -> Inv r s ->
    exists s',
      for_loop fuel cond next body (Z.of_nat r) s = Done (tt, s') /\ Inv n s'.
Proof.
  induction k as [|k IH]; intros r fuel s Hrk Hfuel Hinv.
  - destruct fuel as [|fuel]; [lia|].
    replace r with n in * by lia.
    simpl. rewrite cond_at. exists s. split; [reflexivity | assumption].
  - destruct fuel as [|fuel]; [lia|].
    assert (Hr : (r < n)%nat) by lia.
    simpl. rewrite (cond_below r Hr).
    destruct (body_step r s Hr Hinv) as (s1 & Hbody & Hinv1).
    unfold bind at 1. rewrite Hbody.
    unfold bind, lift. rewrite (next_below r Hr).
    apply IH; [lia | lia | assumption].
Qed.

Lemma for_loop_runs :
  forall fuel s,
    (n < fuel)%nat -> Inv 0 s ->
    exists s', for_loop fuel cond next body 0 s = Done (tt, s') /\ Inv n s'.
Proof.
  intros fuel s Hfuel Hinv.
  apply (for_loop_from n 0%nat fuel s); [lia | assumption | assumption].
Qed.

End ForLoop.

Lemma uint_incr_below (n r : nat) :
  Z.of_nat n <= UINT_MAX -> (r < n)%nat ->
  uint_incr (Z.of_nat r) = Done (Z.of_nat (S r)).
Proof.
  intros Hn Hr. unfold uint_incr. f_equal.
  unfold UINT_MAX in *. rewrite Z.mod_small; lia.
Qed.

Lemma int_incr_below (n r : nat) :
  Z.of_nat n <= INT_MAX -> (r < n)%nat ->
  int_incr (Z.of_nat r) = Done (Z.of_nat (S r)).
Proof.
  intros Hn Hr. unfold int_incr.
  destruct (Z.leb_spec (Z.of_nat r + 1) INT_MAX) as [_|Hgt]; [f_equal; lia|lia].
Qed.

Lemma size_add_small (vec : list string) (l : Z) :
  0 <= l -> size vec + l <= UINT_MAX -> size_add (size vec) l = size vec + l.
Proof.
  intros Hl Hs. unfold size_add, SIZE_MAX, size, UINT_MAX in *.
  rewrite Z.mod_small; lia.
Qed.

(** The [uint] counter wraps at its maximum. *)
Example uint_incr_wraps : uint_incr UINT_MAX = Done 0.
Proof. reflexivity. Qed.

(* ================================================================== *)
(** ** Futures under any schedule *)

Lemma await_complete (fs : future -> task) (g f : future) :
  await (complete fs g) f = await fs f.
Proof.
  unfold complete, await.
  destruct (fs g) as [|arg|v] eqn:Eg; try reflexivity.
  unfold set_fut.
  destruct g, f; simpl; try reflexivity; rewrite Eg; reflexivity.
Qed.

Lemma await_fold_complete (l : list future) :
  forall fs f, await (fold_left complete l fs) f = await fs f.
Proof.
  induction l as [|g l IH]; intros fs f; simpl; [reflexivity|].
  rewrite IH. apply await_complete.
Qed.

Lemma await_set_same (fs : future -> task) (f : future) (arg : string) :
  await (set_fut fs f (Pending arg)) f = Some (future_fn f arg).
Proof. unfold await, set_fut. destruct f; reflexivity. Qed.

Lemma await_set_other (fs : future -> task) (f g : future) (t : task) :
  g <> f -> await (set_fut fs g t) f = await fs f.
Proof.
  intros Hne. unfold await, set_fut.
  destruct g, f; simpl; try reflexivity; congruence.
Qed.

(** The guarded access [(i < vec.size()) ? vec[i] : no_data]. *)
Lemma guarded_at (vec : list string) (r : nat) (m : machine) :
  (if Z.of_nat r <? size vec then at_ vec (Z.of_nat r) else ret no_data) m
  = Done (input vec r, m).
Proof.
  unfold input, size.
  destruct (Z.ltb_spec (Z.of_nat r) (Z.of_nat (length vec))) as [Hlt|Hge].
  - unfold at_. destruct (Z.ltb_spec (Z.of_nat r) 0) as [Hneg|_]; [lia|].
    rewrite Nat2Z.id.
    rewrite (nth_error_nth' vec no_data) by lia. reflexivity.
  - unfold ret. rewrite nth_overflow by lia. reflexivity.
Qed.

(** The unguarded access [vec[i]] inside the vector. *)
Lemma at_inside (vec : list string) (r : nat) (m : machine) :
  (r < length vec)%nat -> at_ vec (Z.of_nat r) m = Done (input vec r, m).
Proof.
  intros Hr. unfold at_, input.
  destruct (Z.ltb_spec (Z.of_nat r) 0) as [Hneg|_]; [lia|].
  rewrite Nat2Z.id. rewrite (nth_error_nth' vec no_data) by lia. reflexivity.
Qed.

Lemma seq_snoc (r : nat) : seq 0 (S r) = (seq 0 r ++ [r])%list.
Proof. rewrite seq_S. reflexivity. Qed.

(* ================================================================== *)
(** ** main2.cpp, round by round *)

(** Symbolic execution of a loop body on a machine whose buffers are known
    by the hypotheses in scope. *)
Ltac run_body :=
  cbv [in_round local bind async get read write print emit yield ret];
  repeat first
    [ progress cbn [bufs futs sched cout rounds cur set_buf buffer_eqb]
    | rewrite guarded_at
    | rewrite at_inside by assumption
    | rewrite await_fold_complete
    | rewrite await_set_same
    | rewrite await_set_other by discriminate
    | match goal with
      | H : ?bs ?b = Some _ |- context [match ?bs ?b with _ => _ end] =>
          rewrite H
      end ].

Lemma parallel2_body_step (x_vec : list string) (r : nat) (m : machine) :
  Rounds2.inv x_vec r m ->
  exists m',
    in_round (Main2.parallel_body x_vec (Z.of_nat r)) m = Done (tt, m')
    /\ Rounds2.inv x_vec (S r) m'.
Proof.
  intros [HF HG Hrounds Hcout].
  destruct m as [bs fs sc co rs cu]. simpl in *.
  unfold Main2.parallel_body. run_body.
  eexists. split; [reflexivity|].
  split; cbn [bufs futs sched cout rounds cur set_buf buffer_eqb future_fn].
  - reflexivity.
  - reflexivity.
  - rewrite Hrounds, seq_snoc, map_app. reflexivity.
  - rewrite Hcout, seq_snoc, map_app. reflexivity.
Qed.

Lemma parallel2_run (fuel : nat) (oracle : list (list future))
    (x_vec : list string) :
  size x_vec + 2 <= UINT_MAX -> (length x_vec + 2 < fuel)%nat ->
  run (Main2.parallel fuel x_vec) oracle
  = Done (Rounds2.parallel_output x_vec).
Proof.
  intros Hsize Hfuel.
  unfold run, Main2.parallel.
  cbv [bind print declare init_machine].
  cbn [bufs futs sched cout rounds cur].
  rewrite size_add_small by (assumption || lia).
  match goal with
  | |- context [for_loop _ _ _ _ _ ?m0] =>
      destruct (for_loop_runs
                  (fun i => i <? size x_vec + 2) uint_incr
                  (fun i => in_round (Main2.parallel_body x_vec i))
                  (length x_vec + 2) (Rounds2.inv x_vec))
        with (fuel := fuel) (s := m0)
        as (m' & Hrun & [_ _ Hrounds Hcout])
  end.
  - intros r Hr. unfold size. apply Z.ltb_lt. lia.
  - unfold size. apply Z.ltb_ge. lia.
  - intros r Hr. apply (uint_incr_below (length x_vec + 2));
      [unfold size in Hsize; lia | assumption].
  - intros r s _ Hinv. apply parallel2_body_step. assumption.
  - exact Hfuel.
  - split; reflexivity.
  - rewrite Hrun. unfold Rounds2.parallel_output. rewrite Hrounds, Hcout.
    reflexivity.
Qed.

Lemma serial2_body_step (x_vec : list string) (r : nat) (m : machine) :
  (r < length x_vec)%nat ->
  Rounds2.serial_inv x_vec r m ->
  exists m',
    in_round (Main2.serial_body x_vec (Z.of_nat r)) m = Done (tt, m')
    /\ Rounds2.serial_inv x_vec (S r) m'.
Proof.
  intros Hr [Hrounds Hcout].
  destruct m as [bs fs sc co rs cu]. simpl in *.
  unfold Main2.serial_body. run_body.
  eexists. split; [reflexivity|].
  split; cbn [bufs futs sched cout rounds cur].
  - rewrite Hrounds, seq_snoc, map_app. reflexivity.
  - rewrite Hcout, seq_snoc, map_app. reflexivity.
Qed.

Lemma serial2_run (fuel : nat) (oracle : list (list future))
    (x_vec : list string) :
  size x_vec <= UINT_MAX -> (length x_vec < fuel)%nat ->
  run (Main2.serial fuel x_vec) oracle = Done (Rounds2.serial_output x_vec).
Proof.
  intros Hsize Hfuel.
  unfold run, Main2.serial.
  cbv [bind print init_machine].
  cbn [bufs futs sched cout rounds cur].
  match goal with
  | |- context [for_loop _ _ _ _ _ ?m0] =>
      destruct (for_loop_runs
                  (fun i => i <? size x_vec) uint_incr
                  (fun i => in_round (Main2.serial_body x_vec i))
                  (length x_vec) (Rounds2.serial_inv x_vec))
        with (fuel := fuel) (s := m0)
        as (m' & Hrun & [Hrounds Hcout])
  end.
  - intros r Hr. unfold size. apply Z.ltb_lt. lia.
  - unfold size. apply Z.ltb_ge. lia.
  - intros r Hr. apply (uint_incr_below (length x_vec));
      [exact Hsize | assumption].
  - intros r s Hr Hinv. apply serial2_body_step; assumption.
  - exact Hfuel.
  - split; reflexivity.
  - rewrite Hrun. unfold Rounds2.serial_output. rewrite Hrounds, Hcout.
    reflexivity.
Qed.

(* ================================================================== *)
(** ** main3.cpp, round by round *)

Lemma parallel3_body_step (x_vec : list string) (r : nat) (m : machine) :
  Rounds3.inv x_vec r m ->
  exists m',
    in_round (Main3.parallel_body x_vec (Z.of_nat r)) m = Done (tt, m')
    /\ Rounds3.inv x_vec (S r) m'.
Proof.
  intros [HF Hrounds Hcout].
  destruct m as [bs fs sc co rs cu]. simpl in *.
  unfold Main3.parallel_body. run_body.
  eexists. split; [reflexivity|].
  split; cbn [bufs futs sched cout rounds cur set_buf buffer_eqb future_fn].
  - reflexivity.
  - rewrite Hrounds, seq_snoc, map_app. reflexivity.
  - rewrite Hcout, seq_snoc, map_app. reflexivity.
Qed.

Lemma parallel3_run (fuel : nat) (oracle : list (list future))
    (x_vec : list string) :
  size x_vec + 1 <= UINT_MAX -> (length x_vec + 1 < fuel)%nat ->
  run (Main3.parallel fuel x_vec) oracle
  = Done (Rounds3.parallel_output x_vec).
Proof.
  intros Hsize Hfuel.
  unfold run, Main3.parallel.
  cbv [bind print declare init_machine].
  cbn [bufs futs sched cout rounds cur].
  rewrite size_add_small by (assumption || lia).
  match goal with
  | |- context [for_loop _ _ _ _ _ ?m0] =>
      destruct (for_loop_runs
                  (fun i => i <? size x_vec + 1) uint_incr
                  (fun i => in_round (Main3.parallel_body x_vec i))
                  (length x_vec + 1) (Rounds3.inv x_vec))
        with (fuel := fuel) (s := m0)
        as (m' & Hrun & [_ Hrounds Hcout])
  end.
  - intros r Hr. unfold size. apply Z.ltb_lt. lia.
  - unfold size. apply Z.ltb_ge. lia.
  - intros r Hr. apply (uint_incr_below (length x_vec + 1));
      [unfold size in Hsize; lia | assumption].
  - intros r s _ Hinv. apply parallel3_body_step. assumption.
  - exact Hfuel.
  - split; reflexivity.
  - rewrite Hrun. unfold Rounds3.parallel_output. rewrite Hrounds, Hcout.
    reflexivity.
Qed.

(* ================================================================== *)
(** ** main4.cpp, round by round *)

Lemma parallel4_body_step (x_vec z_vec : list string) (r : nat)
    (m : machine) :
  Rounds4.inv x_vec z_vec r m ->
  exists m',
    in_round (Main4.parallel_body x_vec z_vec (Z.of_nat r)) m = Done (tt, m')
    /\ Rounds4.inv x_vec z_vec (S r) m'.
Proof.
  intros [HS Hrounds Hcout].
  destruct m as [bs fs sc co rs cu]. simpl in *.
  unfold Main4.parallel_body. run_body.
  eexists. split; [reflexivity|].
  split; cbn [bufs futs sched cout rounds cur set_buf buffer_eqb future_fn].
  - reflexivity.
  - rewrite Hrounds, seq_snoc, map_app. reflexivity.
  - rewrite Hcout, seq_snoc, map_app. reflexivity.
Qed.

Lemma parallel4_run (fuel : nat) (oracle : list (list future))
    (x_vec z_vec : list string) :
  size x_vec + 1 <= UINT_MAX -> (length x_vec + 1 < fuel)%nat ->
  run (Main4.parallel fuel x_vec z_vec) oracle
  = Done (Rounds4.parallel_output x_vec z_vec).
Proof.
  intros Hsize Hfuel.
  unfold run, Main4.parallel.
  cbv [bind print declare init_machine].
  cbn [bufs futs sched cout rounds cur].
  rewrite size_add_small by (assumption || lia).
  match goal with
  | |- context [for_loop _ _ _ _ _ ?m0] =>
      destruct (for_loop_runs
                  (fun i => i <? size x_vec + 1) uint_incr
                  (fun i => in_round (Main4.parallel_body x_vec z_vec i))
                  (length x_vec + 1) (Rounds4.inv x_vec z_vec))
        with (fuel := fuel) (s := m0)
        as (m' & Hrun & [_ Hrounds Hcout])
  end.
  - intros r Hr. unfold size. apply Z.ltb_lt. lia.
  - unfold size. apply Z.ltb_ge. lia.
  - intros r Hr. apply (uint_incr_below (length x_vec + 1));
      [unfold size in Hsize; lia | assumption].
  - intros r s _ Hinv. apply parallel4_body_step. assumption.
  - exact Hfuel.
  - split; reflexivity.
  - rewrite Hrun. unfold Rounds4.parallel_output. rewrite Hrounds, Hcout.
    reflexivity.
Qed.

Lemma serial4_body_step (x_vec z_vec : list string) (r : nat)
    (m : machine) :
  (r < length x_vec)%nat -> (r < length z_vec)%nat ->
  Rounds4.serial_inv x_vec z_vec r m ->
  exists m',
    in_round (Main4.serial_body x_vec z_vec (Z.of_nat r)) m = Done (tt, m')
    /\ Rounds4.serial_inv x_vec z_vec (S r) m'.
Proof.
  intros Hx Hz [Hrounds Hcout].
  destruct m as [bs fs sc co rs cu]. simpl in *.
  unfold Main4.serial_body. run_body.
  eexists. split; [reflexivity|].
  split; cbn [bufs futs sched cout rounds cur].
  - rewrite Hrounds, seq_snoc, map_app. reflexivity.
  - rewrite Hcout, seq_snoc, map_app. reflexivity.
Qed.

Lemma serial4_run (fuel : nat) (oracle : list (list future))
    (x_vec z_vec : list string) :
  size x_vec <= UINT_MAX -> (length x_vec <= length z_vec)%nat ->
  (length x_vec < fuel)%nat ->
  run (Main4.serial fuel x_vec z_vec) oracle
  = Done (Rounds4.serial_output x_vec z_vec).
Proof.
  intros Hsize Hlen Hfuel.
  unfold run, Main4.serial.
  cbv [bind print init_machine].
  cbn [bufs futs sched cout rounds cur].
  match goal with
  | |- context [for_loop _ _ _ _ _ ?m0] =>
      destruct (for_loop_runs
                  (fun i => i <? size x_vec) uint_incr
                  (fun i => in_round (Main4.serial_body x_vec z_vec i))
                  (length x_vec) (Rounds4.serial_inv x_vec z_vec))
        with (fuel := fuel) (s := m0)
        as (m' & Hrun & [Hrounds Hcout])
  end.
  - intros r Hr. unfold size. apply Z.ltb_lt. lia.
  - unfold size. apply Z.ltb_ge. lia.
  - intros r Hr. apply (uint_incr_below (length x_vec));
      [exact Hsize | assumption].
  - intros r s Hr Hinv.
    apply serial4_body_step; [assumption | lia | assumption].
  - exact Hfuel.
  - split; reflexivity.
  - rewrite Hrun. unfold Rounds4.serial_output. rewrite Hrounds, Hcout.
    reflexivity.
Qed.

(* ================================================================== *)
(** ** The printed lines on small inputs *)

Example parallel2_prints :
  exists out,
    run (Main2.parallel 4 ["x_0"]%string) [[G_future]; []; [F_future]]
      = Done out
    /\ out_cout out
       = ["Parallel:";
          "Step 0:  Thread 1: F(x_0)  Thread 2: G(--)  Thread 3: H(--)";
          "Step 1:  Thread 1: F(--)  Thread 2: G(F(x_0))  Thread 3: H(G(--))";
          "Step 2:  Thread 1: F(--)  Thread 2: G(F(--))  Thread 3: H(G(F(x_0)))"
         ]%string.
Proof. eexists. split; vm_compute; reflexivity. Qed.

Example serial2_prints :
  exists out,
    run (Main2.serial 4 ["x_0"; "x_1"]%string) [] = Done out
    /\ out_cout out
       = ["Serial:";
          "Step 0:  Thread 1: H(G(F(x_0)))";
          "Step 1:  Thread 1: H(G(F(x_1)))"]%string.
Proof. eexists. split; vm_compute; reflexivity. Qed.

Example parallel3_prints :
  exists out,
    run (Main3.parallel 4 ["x_0"]%string) [[]; [G_future; F_future]]
      = Done out
    /\ out_cout out
       = ["Parallel:";
          "Step 0:  Thread 1: F(x_0)  Thread 2: G(--)  Thread Main: -- + G(--)";
          "Step 1:  Thread 1: F(--)  Thread 2: G(F(x_0))  Thread Main: F(x_0) + G(F(x_0))"
         ]%string.
Proof. eexists. split; vm_compute; reflexivity. Qed.

Example parallel4_prints :
  exists out,
    run (Main4.parallel 4 ["x_0"]%string ["z_0"]%string) [[H_future]]
      = Done out
    /\ out_cout out
       = ["Parallel:";
          "Step 0:  Thread 1: F(x_0)  Thread 2: G(z_0)  Thread 3: H(--)";
          "Step 1:  Thread 1: F(--)  Thread 2: G(--)  Thread 3: H(F(x_0) + G(z_0))"
         ]%string.
Proof. eexists. split; vm_compute; reflexivity. Qed.

(* ================================================================== *)
(** ** Lists of rounds *)

Lemma nth_error_map_seq {A} (f : nat -> A) (n i : nat) :
  (i < n)%nat -> nth_error (map f (seq 0 n)) i = Some (f i).
Proof.
  intros Hi. rewrite nth_error_map.
  rewrite (nth_error_nth' (seq 0 n) 0%nat) by (rewrite length_seq; exact Hi).
  rewrite seq_nth by exact Hi. reflexivity.
Qed.

Lemma in_map_seq {A} (f : nat -> A) (n : nat) (a : A) :
  In a (map f (seq 0 n)) -> exists r, (r < n)%nat /\ a = f r.
Proof.
  intros Hin. apply in_map_iff in Hin. destruct Hin as (r & Hr & Hin).
  apply in_seq in Hin. exists r. split; [lia | congruence].
Qed.

Lemma precedesb_sound (p q : event -> bool) (evs : list event) :
  precedesb p q evs = true -> precedes p q evs.
Proof.
  induction evs as [|e rest IH]; intros Hb i j a b Hi Hj Hp Hq.
  - destruct i; discriminate.
  - simpl in Hb. apply andb_true_iff in Hb. destruct Hb as [Hhead Hrest].
    destruct j as [|j].
    + simpl in Hj. assert (Heb : b = e) by congruence. subst b.
      rewrite Hq in Hhead. simpl in Hhead.
      apply negb_true_iff in Hhead.
      assert (Hex : existsb p (e :: rest) = true).
      { apply existsb_exists. exists a. split; [|exact Hp].
        apply nth_error_In with i. exact Hi. }
      simpl in Hex. congruence.
    + destruct i as [|i]; [lia|].
      simpl in Hi, Hj. apply -> Nat.succ_lt_mono.
      exact (IH Hrest i j a b Hi Hj Hp Hq).
Qed.

(* ================================================================== *)
(** ** common.hpp: gen_vec_string *)

Lemma gen_vec_string_run (fuel : nat) (n : Z) (prefix : string) :
  0 <= n <= INT_MAX -> (Z.to_nat n < fuel)%nat ->
  gen_vec_string fuel n prefix
  = Done (map (fun i => (prefix ++ "_" ++ to_string (Z.of_nat i))%string)
              (seq 0 (Z.to_nat n))).
Proof.
  intros Hn Hfuel. unfold gen_vec_string.
  destruct (for_loop_runs
              (fun i => i <? n) int_incr
              (fun i => push_back (prefix ++ "_" ++ to_string i)%string)
              (Z.to_nat n)
              (fun r vec =>
                 vec = map (fun i => (prefix ++ "_"
                                        ++ to_string (Z.of_nat i))%string)
                           (seq 0 r)))
    with (fuel := fuel) (s := @nil string) as (vec & Hrun & Hvec).
  - intros r Hr. apply Z.ltb_lt. lia.
  - apply Z.ltb_ge. lia.
  - intros r Hr. apply (int_incr_below (Z.to_nat n)); [lia | assumption].
  - intros r vec _ ->. eexists. split; [reflexivity|].
    rewrite seq_snoc, map_app. reflexivity.
  - exact Hfuel.
  - reflexivity.
  - rewrite Hrun, Hvec. reflexivity.
Qed.

(** C10: for [0 <= n] (and [n] an [int]), [gen_vec_string(n, p)] returns a
    vector of exactly [n] strings, and its element at each index [i] in
    [0..n-1] is [p + "_" + to_string(i)]. *)
Theorem gen_vec_string_elements (fuel : nat) (n : Z) (prefix : string) :
  0 <= n <= INT_MAX -> (Z.to_nat n < fuel)%nat ->
  exists vec,
    gen_vec_string fuel n prefix = Done vec
    /\ size vec = n
    /\ forall i, 0 <= i < n ->
         nth_error vec (Z.to_nat i)
         = Some (prefix ++ "_" ++ to_string i)%string.
Proof.
  intros Hn Hfuel. eexists. split; [apply gen_vec_string_run; assumption|].
  split.
  - unfold size. rewrite length_map, length_seq. lia.
  - intros i Hi. rewrite nth_error_map_seq by lia.
    rewrite Z2Nat.id by lia. reflexivity.
Qed.

Lemma gen_vec_string_elements_witness :
  exists vec,
    gen_vec_string 4 3 "x" = Done vec
    /\ size vec = 3
    /\ forall i, 0 <= i < 3 ->
         nth_error vec (Z.to_nat i) = Some ("x" ++ "_" ++ to_string i)%string.
Proof.
  apply (gen_vec_string_elements 4 3 "x").
  - unfold INT_MAX. lia.
  - vm_compute. lia.
Defined.

(* ================================================================== *)
(** ** The claims about the pipelines *)

(** The statements below hold under every scheduling oracle.  They assume
    that the bound of the loop, [x_vec.size() + L], is a value of the [uint]
    counter that runs up to it, and that the fuel given to the loop exceeds
    the number of its rounds. *)

Lemma input_nth_error (vec : list string) (r : nat) :
  input vec r = match nth_error vec r with
                | Some v => v
                | None => no_data
                end.
Proof.
  unfold input. destruct (nth_error vec r) as [v|] eqn:Hv.
  - apply nth_error_nth. exact Hv.
  - apply nth_overflow. apply nth_error_None. exact Hv.
Qed.

Lemma input_inside (vec : list string) (i : nat) (v : string) :
  nth_error vec i = Some v -> (i < length vec)%nat /\ input vec i = v.
Proof.
  intros Hv. split.
  - apply nth_error_Some. congruence.
  - rewrite input_nth_error, Hv. reflexivity.
Qed.

(** C1: in the 3-stage chain the H-result obtained in round [i+2] of the
    parallel run is [H(G(F(x[i])))] for every index [i] of the input, the
    value the serial run computes for that index; both runs finish. *)
Theorem parallel_agrees_with_serial (fuel : nat)
    (oracle : list (list future)) (x_vec : list string) :
  size x_vec + 2 <= UINT_MAX -> (length x_vec + 2 < fuel)%nat ->
  exists par ser,
    run (Main2.parallel fuel x_vec) oracle = Done par
    /\ run (Main2.serial fuel x_vec) oracle = Done ser
    /\ length (out_rounds ser) = length x_vec
    /\ forall i x_i,
         nth_error x_vec i = Some x_i ->
         exists round_p round_s,
           nth_error (out_rounds par) (i + 2) = Some round_p
           /\ nth_error (out_rounds ser) i = Some round_s
           /\ got H_future round_p = [H (G (F x_i))]
           /\ locals "y_i" round_s = [H (G (F x_i))].
Proof.
  intros Hsize Hfuel.
  exists (Rounds2.parallel_output x_vec), (Rounds2.serial_output x_vec).
  split; [apply parallel2_run; assumption|].
  split; [apply serial2_run; [lia | lia]|].
  split; [simpl; rewrite length_map, length_seq; reflexivity|].
  intros i x_i Hx. destruct (input_inside _ _ _ Hx) as [Hi Hin].
  exists (Rounds2.parallel_round x_vec (i + 2)), (Rounds2.serial_round x_vec i).
  split; [simpl; apply nth_error_map_seq; lia|].
  split; [simpl; apply nth_error_map_seq; lia|].
  split.
  - replace (i + 2)%nat with (S (S i)) by lia. simpl. rewrite Hin.
    reflexivity.
  - simpl. unfold Rounds2.serial_value. rewrite Hin. reflexivity.
Qed.

Lemma parallel_agrees_with_serial_witness :
  exists par ser,
    run (Main2.parallel 5 ["x_0"; "x_1"]%string) [[G_future]; [F_future]]
      = Done par
    /\ run (Main2.serial 5 ["x_0"; "x_1"]%string) [[G_future]; [F_future]]
       = Done ser
    /\ length (out_rounds ser) = length ["x_0"; "x_1"]%string
    /\ forall i x_i,
         nth_error ["x_0"; "x_1"]%string i = Some x_i ->
         exists round_p round_s,
           nth_error (out_rounds par) (i + 2) = Some round_p
           /\ nth_error (out_rounds ser) i = Some round_s
           /\ got H_future round_p = [H (G (F x_i))]
           /\ locals "y_i" round_s = [H (G (F x_i))].
Proof.
  apply (parallel_agrees_with_serial 5 [[G_future]; [F_future]]
           ["x_0"; "x_1"]%string).
  - vm_compute. discriminate.
  - simpl. lia.
Defined.

(** C2: the parallel run executes [N + 2] rounds in main2 and [N + 1]
    rounds in main3 and in main4, [N] being the length of [x_vec]. *)
Theorem parallel_round_count (fuel : nat) (oracle : list (list future))
    (x_vec z_vec : list string) :
  size x_vec + 2 <= UINT_MAX -> (length x_vec + 2 < fuel)%nat ->
  (exists out, run (Main2.parallel fuel x_vec) oracle = Done out
               /\ length (out_rounds out) = (length x_vec + 2)%nat)
  /\ (exists out, run (Main3.parallel fuel x_vec) oracle = Done out
                  /\ length (out_rounds out) = (length x_vec + 1)%nat)
  /\ (exists out, run (Main4.parallel fuel x_vec z_vec) oracle = Done out
                  /\ length (out_rounds out) = (length x_vec + 1)%nat).
Proof.
  intros Hsize Hfuel. repeat split.
  - exists (Rounds2.parallel_output x_vec).
    split; [apply parallel2_run; assumption|].
    simpl. rewrite length_map, length_seq. reflexivity.
  - exists (Rounds3.parallel_output x_vec).
    split; [apply parallel3_run; lia|].
    simpl. rewrite length_map, length_seq. reflexivity.
  - exists (Rounds4.parallel_output x_vec z_vec).
    split; [apply parallel4_run; lia|].
    simpl. rewrite length_map, length_seq. reflexivity.
Qed.

Lemma parallel_round_count_witness :
  (exists out, run (Main2.parallel 5 ["a"; "b"]%string) [] = Done out
               /\ length (out_rounds out)
                  = (length ["a"; "b"]%string + 2)%nat)
  /\ (exists out, run (Main3.parallel 5 ["a"; "b"]%string) [] = Done out
                  /\ length (out_rounds out)
                     = (length ["a"; "b"]%string + 1)%nat)
  /\ (exists out,
        run (Main4.parallel 5 ["a"; "b"]%string ["c"]%string) [] = Done out
        /\ length (out_rounds out) = (length ["a"; "b"]%string + 1)%nat).
Proof.
  apply (parallel_round_count 5 [] ["a"; "b"]%string ["c"]%string).
  - vm_compute. discriminate.
  - simpl. lia.
Defined.

(** C3 as stated fails: the final-stage result of the first round, built
    from the sentinel alone, is printed like any other. *)
Lemma fill_up_result_is_printed :
  exists out,
    run (Main2.parallel 4 ["x_0"]%string) [] = Done out
    /\ ~ sentinel_non_leakage (got H_future) out.
Proof.
  eexists. split; [vm_compute; reflexivity|].
  intros Hclaim.
  refine (Hclaim _ (H no_data) (or_introl eq_refl) _ (so_H _ so_no_data)).
  split.
  - simpl. left. reflexivity.
  - eexists. split; [simpl; left; reflexivity|].
    simpl. tauto.
Qed.

Lemma emits_parallel2 (x_vec : list string) (r : nat) :
  emits (got H_future) (Rounds2.parallel_round x_vec r)
        (H (Rounds2.G_buffer_at x_vec r)).
Proof.
  split; [simpl; left; reflexivity|].
  exists (Rounds2.line x_vec r). split; simpl; tauto.
Qed.

Lemma emits_parallel3 (x_vec : list string) (r : nat) :
  emits (locals "y") (Rounds3.parallel_round x_vec r) (Rounds3.final x_vec r).
Proof.
  split; [simpl; left; reflexivity|].
  exists (Rounds3.line x_vec r). split; simpl; tauto.
Qed.

(** C3, amended: nothing is discarded.  In main2 and main3 the final-stage
    result of every round is printed; in the first [L] rounds it is built from
    the sentinel alone, and in round [i + L] it is the serial value of
    [x[i]]. *)
Theorem fill_up_results_are_sentinel (fuel : nat)
    (oracle : list (list future)) (x_vec : list string) :
  size x_vec + 2 <= UINT_MAX -> (length x_vec + 2 < fuel)%nat ->
  exists out2 out3,
    run (Main2.parallel fuel x_vec) oracle = Done out2
    /\ run (Main3.parallel fuel x_vec) oracle = Done out3
    /\ (forall r, (r < 2)%nat ->
        exists round v,
          nth_error (out_rounds out2) r = Some round
          /\ got H_future round = [v]
          /\ emits (got H_future) round v /\ sentinel_only v)
    /\ (exists round v,
          nth_error (out_rounds out3) 0 = Some round
          /\ locals "y" round = [v]
          /\ emits (locals "y") round v /\ sentinel_only v)
    /\ (forall i x_i, nth_error x_vec i = Some x_i ->
        exists round,
          nth_error (out_rounds out2) (i + 2) = Some round
          /\ got H_future round = [H (G (F x_i))]
          /\ emits (got H_future) round (H (G (F x_i))))
    /\ (forall i x_i, nth_error x_vec i = Some x_i ->
        exists round,
          nth_error (out_rounds out3) (i + 1) = Some round
          /\ locals "y" round = [sum (F x_i) (G (F x_i))]
          /\ emits (locals "y") round (sum (F x_i) (G (F x_i)))).
Proof.
  intros Hsize Hfuel.
  exists (Rounds2.parallel_output x_vec), (Rounds3.parallel_output x_vec).
  split; [apply parallel2_run; assumption|].
  split; [apply parallel3_run; lia|].
  split; [|split; [|split]].
  - intros r Hr.
    exists (Rounds2.parallel_round x_vec r), (H (Rounds2.G_buffer_at x_vec r)).
    split; [simpl; apply nth_error_map_seq; lia|].
    split; [reflexivity|]. split; [apply emits_parallel2|].
    destruct r as [|[|r]]; [| |lia].
    + exact (so_H _ so_no_data).
    + exact (so_H _ (so_G _ so_no_data)).
  - exists (Rounds3.parallel_round x_vec 0), (Rounds3.final x_vec 0).
    split; [simpl out_rounds; apply nth_error_map_seq; lia|].
    split; [reflexivity|]. split; [apply emits_parallel3|].
    exact (so_sum _ _ so_no_data (so_G _ so_no_data)).
  - intros i x_i Hx. destruct (input_inside _ _ _ Hx) as [Hi Hin].
    exists (Rounds2.parallel_round x_vec (i + 2)).
    split; [simpl; apply nth_error_map_seq; lia|].
    assert (Hv : H (Rounds2.G_buffer_at x_vec (i + 2)) = H (G (F x_i))).
    { replace (i + 2)%nat with (S (S i)) by lia. simpl. rewrite Hin.
      reflexivity. }
    rewrite <- Hv. split; [reflexivity | apply emits_parallel2].
  - intros i x_i Hx. destruct (input_inside _ _ _ Hx) as [Hi Hin].
    exists (Rounds3.parallel_round x_vec (i + 1)).
    split; [simpl; apply nth_error_map_seq; lia|].
    assert (Hv : Rounds3.final x_vec (i + 1) = sum (F x_i) (G (F x_i))).
    { replace (i + 1)%nat with (S i) by lia. unfold Rounds3.final. simpl.
      rewrite Hin. reflexivity. }
    rewrite <- Hv. split; [reflexivity | apply emits_parallel3].
Qed.

Lemma fill_up_results_are_sentinel_witness :
  exists out2 out3,
    run (Main2.parallel 4 ["x_0"]%string) [[H_future]] = Done out2
    /\ run (Main3.parallel 4 ["x_0"]%string) [[H_future]] = Done out3
    /\ (forall r, (r < 2)%nat ->
        exists round v,
          nth_error (out_rounds out2) r = Some round
          /\ got H_future round = [v]
          /\ emits (got H_future) round v /\ sentinel_only v)
    /\ (exists round v,
          nth_error (out_rounds out3) 0 = Some round
          /\ locals "y" round = [v]
          /\ emits (locals "y") round v /\ sentinel_only v)
    /\ (forall i x_i, nth_error ["x_0"]%string i = Some x_i ->
        exists round,
          nth_error (out_rounds out2) (i + 2) = Some round
          /\ got H_future round = [H (G (F x_i))]
          /\ emits (got H_future) round (H (G (F x_i))))
    /\ (forall i x_i, nth_error ["x_0"]%string i = Some x_i ->
        exists round,
          nth_error (out_rounds out3) (i + 1) = Some round
          /\ locals "y" round = [sum (F x_i) (G (F x_i))]
          /\ emits (locals "y") round (sum (F x_i) (G (F x_i)))).
Proof.
  apply (fill_up_results_are_sentinel 4 [[H_future]] ["x_0"]%string).
  - vm_compute. discriminate.
  - simpl. lia.
Defined.

(** C4 as stated fails: in main3 [F_buffer] is read twice in a round, once
    for the task of [G] and once for [sum]. *)
Lemma main3_reads_F_buffer_twice :
  exists out,
    run (Main3.parallel 3 ["x_0"]%string) [] = Done out
    /\ ~ (forall round,
            In round (out_rounds out) -> slot_discipline 1 F_buffer round).
Proof.
  eexists. split; [vm_compute; reflexivity|].
  intros Hclaim.
  destruct (Hclaim _ (or_introl eq_refl)) as (_ & Hreads & _).
  simpl in Hreads. discriminate.
Qed.

Lemma slot_discipline_parallel2 (x_vec : list string) (r : nat)
    (b : buffer) :
  b = F_buffer \/ b = G_buffer ->
  slot_discipline 1 b (Rounds2.parallel_round x_vec r).
Proof.
  intros [-> | ->]; repeat split;
    try (intros f; destruct f; reflexivity);
    apply precedesb_sound; reflexivity.
Qed.

Lemma slot_discipline_parallel3 (x_vec : list string) (r : nat) :
  slot_discipline 2 F_buffer (Rounds3.parallel_round x_vec r).
Proof.
  repeat split;
    try (intros f; destruct f; reflexivity);
    apply precedesb_sound; reflexivity.
Qed.

Lemma slot_discipline_parallel4 (x_vec z_vec : list string) (r : nat) :
  slot_discipline 1 F_G_sum_buffer (Rounds4.parallel_round x_vec z_vec r).
Proof.
  repeat split;
    try (intros f; destruct f; reflexivity);
    apply precedesb_sound; reflexivity.
Qed.

(** C4, amended: in every round of every parallel run each buffer is
    written exactly once, after every future of the round has been joined
    and after the reads of the buffer in that round.  [F_buffer] and
    [G_buffer] of main2 and [F_G_sum_buffer] of main4 are read exactly once
    per round; [F_buffer] of main3 is read twice. *)
Theorem buffers_written_once_after_joins (fuel : nat)
    (oracle : list (list future)) (x_vec z_vec : list string) :
  size x_vec + 2 <= UINT_MAX -> (length x_vec + 2 < fuel)%nat ->
  exists out2 out3 out4,
    run (Main2.parallel fuel x_vec) oracle = Done out2
    /\ run (Main3.parallel fuel x_vec) oracle = Done out3
    /\ run (Main4.parallel fuel x_vec z_vec) oracle = Done out4
    /\ (forall round, In round (out_rounds out2) ->
        slot_discipline 1 F_buffer round /\ slot_discipline 1 G_buffer round)
    /\ (forall round, In round (out_rounds out3) ->
        slot_discipline 2 F_buffer round)
    /\ (forall round, In round (out_rounds out4) ->
        slot_discipline 1 F_G_sum_buffer round).
Proof.
  intros Hsize Hfuel.
  exists (Rounds2.parallel_output x_vec), (Rounds3.parallel_output x_vec),
    (Rounds4.parallel_output x_vec z_vec).
  split; [apply parallel2_run; assumption|].
  split; [apply parallel3_run; lia|].
  split; [apply parallel4_run; lia|].
  split; [|split].
  - intros round Hin. apply in_map_seq in Hin. destruct Hin as (r & _ & ->).
    split; apply slot_discipline_parallel2; auto.
  - intros round Hin. apply in_map_seq in Hin. destruct Hin as (r & _ & ->).
    apply slot_discipline_parallel3.
  - intros round Hin. apply in_map_seq in Hin. destruct Hin as (r & _ & ->).
    apply slot_discipline_parallel4.
Qed.

Lemma buffers_written_once_after_joins_witness :
  exists out2 out3 out4,
    run (Main2.parallel 4 ["x_0"]%string) [] = Done out2
    /\ run (Main3.parallel 4 ["x_0"]%string) [] = Done out3
    /\ run (Main4.parallel 4 ["x_0"]%string ["z_0"]%string) [] = Done out4
    /\ (forall round, In round (out_rounds out2) ->
        slot_discipline 1 F_buffer round /\ slot_discipline 1 G_buffer round)
    /\ (forall round, In round (out_rounds out3) ->
        slot_discipline 2 F_buffer round)
    /\ (forall round, In round (out_rounds out4) ->
        slot_discipline 1 F_G_sum_buffer round).
Proof.
  apply (buffers_written_once_after_joins 4 [] ["x_0"]%string
           ["z_0"]%string).
  - vm_compute. discriminate.
  - simpl. lia.
Defined.

(** C5 as stated fails: with a shorter second stream the run still executes
    one round more than the first stream has elements, and so yields one
    result per element of the first stream. *)
Lemma results_follow_first_stream :
  exists out,
    run (Main4.parallel 4 ["x_0"; "x_1"]%string ["z_0"]%string) [] = Done out
    /\ length (results 1 out)
       <> Nat.min (length ["x_0"; "x_1"]%string) (length ["z_0"]%string)
    /\ length (out_rounds out)
       <> Nat.min (length ["x_0"; "x_1"]%string) (length ["z_0"]%string).
Proof.
  eexists. split; [vm_compute; reflexivity|].
  split; simpl; discriminate.
Qed.

(** On the same input the serial reference indexes [z_vec] out of range. *)
Example serial4_short_z_faults :
  run (Main4.serial 4 ["x_0"; "x_1"]%string ["z_0"]%string) [] = Fault.
Proof. vm_compute. reflexivity. Qed.

(** C5, amended: the parallel run of main4 finishes without any
    out-of-range access whatever the lengths of the two streams, and after
    the fill-up round it yields one result per element of [x_vec]; result
    [i] is [H(F(x[i]) + G(z))] with [z = z_vec[i]] when [z_vec] has an element
    [i] and the sentinel otherwise.  The number of results is the length of
    the shortest stream when [z_vec] is at least as long as [x_vec]. *)
Theorem diamond_results_follow_x_vec (fuel : nat)
    (oracle : list (list future)) (x_vec z_vec : list string) :
  size x_vec + 1 <= UINT_MAX -> (length x_vec + 1 < fuel)%nat ->
  exists out,
    run (Main4.parallel fuel x_vec z_vec) oracle = Done out
    /\ length (results 1 out) = length x_vec
    /\ ((length x_vec <= length z_vec)%nat ->
        length (results 1 out) = Nat.min (length x_vec) (length z_vec))
    /\ (forall i x_i, nth_error x_vec i = Some x_i ->
        exists round,
          nth_error (results 1 out) i = Some round
          /\ got H_future round
             = [H (sum (F x_i)
                       (G match nth_error z_vec i with
                          | Some z_i => z_i
                          | None => no_data
                          end))]).
Proof.
  intros Hsize Hfuel.
  exists (Rounds4.parallel_output x_vec z_vec).
  split; [apply parallel4_run; assumption|].
  assert (Hlen : length (results 1 (Rounds4.parallel_output x_vec z_vec))
                 = length x_vec).
  { unfold results. rewrite length_skipn. simpl.
    rewrite length_map, length_seq. lia. }
  split; [exact Hlen|].
  split; [intros Hle; rewrite Hlen; lia|].
  intros i x_i Hx. destruct (input_inside _ _ _ Hx) as [Hi Hin].
  exists (Rounds4.parallel_round x_vec z_vec (S i)).
  split.
  - unfold results. rewrite nth_error_skipn. simpl out_rounds.
    apply nth_error_map_seq. lia.
  - simpl. rewrite Hin, <- input_nth_error. reflexivity.
Qed.

Lemma diamond_results_follow_x_vec_witness :
  exists out,
    run (Main4.parallel 4 ["x_0"; "x_1"]%string ["z_0"]%string) [] = Done out
    /\ length (results 1 out) = length ["x_0"; "x_1"]%string
    /\ ((length ["x_0"; "x_1"]%string <= length ["z_0"]%string)%nat ->
        length (results 1 out)
        = Nat.min (length ["x_0"; "x_1"]%string) (length ["z_0"]%string))
    /\ (forall i x_i, nth_error ["x_0"; "x_1"]%string i = Some x_i ->
        exists round,
          nth_error (results 1 out) i = Some round
          /\ got H_future round
             = [H (sum (F x_i)
                       (G match nth_error ["z_0"]%string i with
                          | Some z_i => z_i
                          | None => no_data
                          end))]).
Proof.
  apply (diamond_results_follow_x_vec 4 [] ["x_0"; "x_1"]%string
           ["z_0"]%string).
  - vm_compute. discriminate.
  - simpl. lia.
Defined.

Lemma input_gen (prefix : string) (i : nat) :
  (i < 10)%nat ->
  input (map (fun k => (prefix ++ "_" ++ to_string (Z.of_nat k))%string)
             (seq 0 10)) i
  = (prefix ++ "_" ++ to_string (Z.of_nat i))%string.
Proof.
  intros Hi. unfold input. apply nth_error_nth.
  apply (nth_error_map_seq
           (fun k => (prefix ++ "_" ++ to_string (Z.of_nat k))%string)).
  exact Hi.
Qed.

(** C6: [main] of main4 runs the diamond on [x_0..x_9] and [z_0..z_9]; the
    parallel run executes 11 rounds, and for each [i] in [0..9] the H-result
    of round [i+1] is [H(F(x_i) + G(z_i))], which is also what the serial
    run computes for index [i]. *)
Theorem diamond_scenario (fuel : nat) (oracle : list (list future)) :
  (11 < fuel)%nat ->
  exists ser par,
    Main4.main fuel oracle = Done (ser, par)
    /\ length (out_rounds par) = 11%nat
    /\ forall i, 0 <= i < 10 ->
         exists round_s round_p,
           nth_error (out_rounds par) (Z.to_nat i + 1) = Some round_p
           /\ got H_future round_p
              = [H (sum (F ("x_" ++ to_string i)) (G ("z_" ++ to_string i)))]
           /\ nth_error (out_rounds ser) (Z.to_nat i) = Some round_s
           /\ locals "y_i" round_s
              = [H (sum (F ("x_" ++ to_string i))
                        (G ("z_" ++ to_string i)))].
Proof.
  intros Hfuel.
  unfold Main4.main.
  rewrite !gen_vec_string_run by (unfold INT_MAX; simpl; lia).
  change (Z.to_nat 10) with 10%nat.
  set (x_vec := map (fun k => ("x" ++ "_" ++ to_string (Z.of_nat k))%string)
                    (seq 0 10)).
  set (z_vec := map (fun k => ("z" ++ "_" ++ to_string (Z.of_nat k))%string)
                    (seq 0 10)).
  assert (Hlx : length x_vec = 10%nat) by reflexivity.
  assert (Hlz : length z_vec = 10%nat) by reflexivity.
  assert (Hx : forall i, 0 <= i < 10 ->
                 input x_vec (Z.to_nat i) = ("x_" ++ to_string i)%string).
  { intros i Hi. unfold x_vec. rewrite input_gen by lia.
    rewrite Z2Nat.id by lia. reflexivity. }
  assert (Hz : forall i, 0 <= i < 10 ->
                 input z_vec (Z.to_nat i) = ("z_" ++ to_string i)%string).
  { intros i Hi. unfold z_vec. rewrite input_gen by lia.
    rewrite Z2Nat.id by lia. reflexivity. }
  clearbody x_vec z_vec.
  rewrite serial4_run
    by (unfold size, UINT_MAX; rewrite ?Hlx, ?Hlz; simpl; lia).
  rewrite parallel4_run
    by (unfold size, UINT_MAX; rewrite ?Hlx; simpl; lia).
  exists (Rounds4.serial_output x_vec z_vec),
    (Rounds4.parallel_output x_vec z_vec).
  split; [reflexivity|].
  split; [simpl; rewrite length_map, length_seq, Hlx; reflexivity|].
  intros i Hi.
  exists (Rounds4.serial_round x_vec z_vec (Z.to_nat i)),
    (Rounds4.parallel_round x_vec z_vec (Z.to_nat i + 1)).
  split; [simpl out_rounds; rewrite Hlx; apply nth_error_map_seq; lia|].
  split.
  { replace (Z.to_nat i + 1)%nat with (S (Z.to_nat i)) by lia.
    simpl. rewrite (Hx i Hi), (Hz i Hi). reflexivity. }
  split; [simpl out_rounds; rewrite Hlx; apply nth_error_map_seq; lia|].
  simpl. unfold Rounds4.serial_value. rewrite (Hx i Hi), (Hz i Hi).
  reflexivity.
Qed.

Lemma diamond_scenario_witness :
  exists ser par,
    Main4.main 12 [[H_future; G_future]; []; [F_future]] = Done (ser, par)
    /\ length (out_rounds par) = 11%nat
    /\ forall i, 0 <= i < 10 ->
         exists round_s round_p,
           nth_error (out_rounds par) (Z.to_nat i + 1) = Some round_p
           /\ got H_future round_p
              = [H (sum (F ("x_" ++ to_string i)) (G ("z_" ++ to_string i)))]
           /\ nth_error (out_rounds ser) (Z.to_nat i) = Some round_s
           /\ locals "y_i" round_s
              = [H (sum (F ("x_" ++ to_string i))
                        (G ("z_" ++ to_string i)))].
Proof.
  apply (diamond_scenario 12 [[H_future; G_future]; []; [F_future]]).
  lia.
Defined.

(** C7: in round [r] of a parallel run the external input taken from a
    stream is its element [r] when the stream has one, and the sentinel
    otherwise; this is the value the stage fed by that input is launched
    on. *)
Theorem external_input_of_round (fuel : nat) (oracle : list (list future))
    (x_vec z_vec : list string) :
  size x_vec + 2 <= UINT_MAX -> (length x_vec + 2 < fuel)%nat ->
  exists out2 out3 out4,
    run (Main2.parallel fuel x_vec) oracle = Done out2
    /\ run (Main3.parallel fuel x_vec) oracle = Done out3
    /\ run (Main4.parallel fuel x_vec z_vec) oracle = Done out4
    /\ forall r x_r z_r,
         x_r = match nth_error x_vec r with Some v => v | None => no_data end ->
         z_r = match nth_error z_vec r with Some v => v | None => no_data end ->
         ((r < length x_vec + 2)%nat ->
          exists round,
            nth_error (out_rounds out2) r = Some round
            /\ locals "x_i" round = [x_r] /\ launched F_future round = [x_r])
         /\ ((r < length x_vec + 1)%nat ->
             exists round,
               nth_error (out_rounds out3) r = Some round
               /\ locals "x_i" round = [x_r]
               /\ launched F_future round = [x_r])
         /\ ((r < length x_vec + 1)%nat ->
             exists round,
               nth_error (out_rounds out4) r = Some round
               /\ locals "x_i" round = [x_r]
               /\ launched F_future round = [x_r]
               /\ locals "z_i" round = [z_r]
               /\ launched G_future round = [z_r]).
Proof.
  intros Hsize Hfuel.
  exists (Rounds2.parallel_output x_vec), (Rounds3.parallel_output x_vec),
    (Rounds4.parallel_output x_vec z_vec).
  split; [apply parallel2_run; assumption|].
  split; [apply parallel3_run; lia|].
  split; [apply parallel4_run; lia|].
  intros r x_r z_r -> ->. rewrite <- !input_nth_error.
  split; [|split].
  - intros Hr. exists (Rounds2.parallel_round x_vec r).
    split; [simpl; apply nth_error_map_seq; exact Hr|].
    split; reflexivity.
  - intros Hr. exists (Rounds3.parallel_round x_vec r).
    split; [simpl; apply nth_error_map_seq; exact Hr|].
    split; reflexivity.
  - intros Hr. exists (Rounds4.parallel_round x_vec z_vec r).
    split; [simpl; apply nth_error_map_seq; exact Hr|].
    repeat split; reflexivity.
Qed.

Lemma external_input_of_round_witness :
  exists out2 out3 out4,
    run (Main2.parallel 5 ["x_0"; "x_1"]%string) [[F_future]] = Done out2
    /\ run (Main3.parallel 5 ["x_0"; "x_1"]%string) [[F_future]] = Done out3
    /\ run (Main4.parallel 5 ["x_0"; "x_1"]%string ["z_0"]%string)
           [[F_future]] = Done out4
    /\ forall r x_r z_r,
         x_r = match nth_error ["x_0"; "x_1"]%string r with
               | Some v => v | None => no_data end ->
         z_r = match nth_error ["z_0"]%string r with
               | Some v => v | None => no_data end ->
         ((r < length ["x_0"; "x_1"]%string + 2)%nat ->
          exists round,
            nth_error (out_rounds out2) r = Some round
            /\ locals "x_i" round = [x_r] /\ launched F_future round = [x_r])
         /\ ((r < length ["x_0"; "x_1"]%string + 1)%nat ->
             exists round,
               nth_error (out_rounds out3) r = Some round
               /\ locals "x_i" round = [x_r]
               /\ launched F_future round = [x_r])
         /\ ((r < length ["x_0"; "x_1"]%string + 1)%nat ->
             exists round,
               nth_error (out_rounds out4) r = Some round
               /\ locals "x_i" round = [x_r]
               /\ launched F_future round = [x_r]
               /\ locals "z_i" round = [z_r]
               /\ launched G_future round = [z_r]).
Proof.
  apply (external_input_of_round 5 [[F_future]] ["x_0"; "x_1"]%string
           ["z_0"]%string).
  - vm_compute. discriminate.
  - simpl. lia.
Defined.

Lemma fed_from_F_buffer_2 (x_vec : list string) (r n : nat) :
  (r < n)%nat ->
  fed_from F_buffer G_future
    (previous_round (map (Rounds2.parallel_round x_vec) (seq 0 n)) r)
    (Rounds2.parallel_round x_vec r).
Proof.
  intros Hr. exists (F_buffer_at x_vec r).
  split; [|split; [reflexivity | split; [discriminate|]]].
  - destruct r as [|r]; [reflexivity|].
    simpl previous_round. rewrite nth_error_map_seq by lia. reflexivity.
  - simpl. intros w [<- | []]. reflexivity.
Qed.

Lemma fed_from_G_buffer_2 (x_vec : list string) (r n : nat) :
  (r < n)%nat ->
  fed_from G_buffer H_future
    (previous_round (map (Rounds2.parallel_round x_vec) (seq 0 n)) r)
    (Rounds2.parallel_round x_vec r).
Proof.
  intros Hr. exists (Rounds2.G_buffer_at x_vec r).
  split; [|split; [reflexivity | split; [discriminate|]]].
  - destruct r as [|r]; [reflexivity|].
    simpl previous_round. rewrite nth_error_map_seq by lia. reflexivity.
  - simpl. intros w [<- | []]. reflexivity.
Qed.

Lemma fed_from_F_buffer_3 (x_vec : list string) (r n : nat) :
  (r < n)%nat ->
  fed_from F_buffer G_future
    (previous_round (map (Rounds3.parallel_round x_vec) (seq 0 n)) r)
    (Rounds3.parallel_round x_vec r).
Proof.
  intros Hr. exists (F_buffer_at x_vec r).
  split; [|split; [reflexivity | split; [discriminate|]]].
  - destruct r as [|r]; [reflexivity|].
    simpl previous_round. rewrite nth_error_map_seq by lia. reflexivity.
  - simpl. intros w [<- | [<- | []]]; reflexivity.
Qed.

(** C8: in every round [r] of a parallel run, a stage that reads a buffer
    is launched on the value written to that buffer in round [r-1], and on
    the sentinel in round 0. *)
Theorem stage_reads_previous_round (fuel : nat)
    (oracle : list (list future)) (x_vec : list string) :
  size x_vec + 2 <= UINT_MAX -> (length x_vec + 2 < fuel)%nat ->
  exists out2 out3,
    run (Main2.parallel fuel x_vec) oracle = Done out2
    /\ run (Main3.parallel fuel x_vec) oracle = Done out3
    /\ (forall r, (r < length x_vec + 2)%nat ->
        exists round,
          nth_error (out_rounds out2) r = Some round
          /\ fed_from F_buffer G_future
               (previous_round (out_rounds out2) r) round
          /\ fed_from G_buffer H_future
               (previous_round (out_rounds out2) r) round)
    /\ (forall r, (r < length x_vec + 1)%nat ->
        exists round,
          nth_error (out_rounds out3) r = Some round
          /\ fed_from F_buffer G_future
               (previous_round (out_rounds out3) r) round).
Proof.
  intros Hsize Hfuel.
  exists (Rounds2.parallel_output x_vec), (Rounds3.parallel_output x_vec).
  split; [apply parallel2_run; assumption|].
  split; [apply parallel3_run; lia|].
  split.
  - intros r Hr. exists (Rounds2.parallel_round x_vec r).
    split; [simpl; apply nth_error_map_seq; exact Hr|].
    split; [apply fed_from_F_buffer_2 | apply fed_from_G_buffer_2]; exact Hr.
  - intros r Hr. exists (Rounds3.parallel_round x_vec r).
    split; [simpl; apply nth_error_map_seq; exact Hr|].
    apply fed_from_F_buffer_3. exact Hr.
Qed.

Lemma stage_reads_previous_round_witness :
  exists out2 out3,
    run (Main2.parallel 5 ["x_0"; "x_1"]%string) [[]; [G_future]] = Done out2
    /\ run (Main3.parallel 5 ["x_0"; "x_1"]%string) [[]; [G_future]]
       = Done out3
    /\ (forall r, (r < length ["x_0"; "x_1"]%string + 2)%nat ->
        exists round,
          nth_error (out_rounds out2) r = Some round
          /\ fed_from F_buffer G_future
               (previous_round (out_rounds out2) r) round
          /\ fed_from G_buffer H_future
               (previous_round (out_rounds out2) r) round)
    /\ (forall r, (r < length ["x_0"; "x_1"]%string + 1)%nat ->
        exists round,
          nth_error (out_rounds out3) r = Some round
          /\ fed_from F_buffer G_future
               (previous_round (out_rounds out3) r) round).
Proof.
  apply (stage_reads_previous_round 5 [[]; [G_future]]
           ["x_0"; "x_1"]%string).
  - vm_compute. discriminate.
  - simpl. lia.
Defined.

(** C9: the parallel run of main2 does not depend on the schedule: under
    any two scheduling oracles it finishes with the same rounds (the same
    arguments, F-, G- and H-results and buffer writes, in the same order)
    and the same printed lines; in every round each buffer write comes
    after the join of every future launched in the round. *)
Theorem parallel_is_schedule_independent (fuel1 fuel2 : nat)
    (oracle1 oracle2 : list (list future)) (x_vec : list string) :
  size x_vec + 2 <= UINT_MAX ->
  (length x_vec + 2 < fuel1)%nat -> (length x_vec + 2 < fuel2)%nat ->
  exists out,
    run (Main2.parallel fuel1 x_vec) oracle1 = Done out
    /\ run (Main2.parallel fuel2 x_vec) oracle2 = Done out
    /\ forall round b,
         In round (out_rounds out) ->
         all_joined round /\ precedes is_get (is_write b) round.
Proof.
  intros Hsize Hfuel1 Hfuel2.
  exists (Rounds2.parallel_output x_vec).
  split; [apply parallel2_run; assumption|].
  split; [apply parallel2_run; assumption|].
  intros round b Hin. apply in_map_seq in Hin. destruct Hin as (r & _ & ->).
  split.
  - intros f. destruct f; reflexivity.
  - apply precedesb_sound. destruct b; reflexivity.
Qed.

Lemma parallel_is_schedule_independent_witness :
  exists out,
    run (Main2.parallel 5 ["x_0"; "x_1"]%string)
        [[H_future; G_future; F_future]] = Done out
    /\ run (Main2.parallel 9 ["x_0"; "x_1"]%string)
           [[]; []; []; [G_future]; [F_future; F_future]] = Done out
    /\ forall round b,
         In round (out_rounds out) ->
         all_joined round /\ precedes is_get (is_write b) round.
Proof.
  apply (parallel_is_schedule_independent 5 9
           [[H_future; G_future; F_future]]
           [[]; []; []; [G_future]; [F_future; F_future]]
           ["x_0"; "x_1"]%string).
  - vm_compute. discriminate.
  - simpl. lia.
  - simpl. lia.
Defined.

(* ================================================================== *)
(** ** Further properties: common.hpp *)

Lemma string_length_append (s t : string) :
  String.length (s ++ t) = (String.length s + String.length t)%nat.
Proof. induction s as [|a s IH]; simpl; [reflexivity | rewrite IH; lia]. Qed.

Lemma string_append_inj_l (p s t : string) :
  (p ++ s = p ++ t)%string -> s = t.
Proof.
  induction p as [|a p IH]; simpl; intros Heq; [exact Heq|].
  injection Heq as Heq. exact (IH Heq).
Qed.

Lemma string_append_inj_r (c : string) :
  forall s t, (s ++ c = t ++ c)%string -> s = t.
Proof.
  induction s as [|a s IH]; intros [|b t] Heq; simpl in Heq.
  - reflexivity.
  - apply (f_equal String.length) in Heq. simpl in Heq.
    rewrite string_length_append in Heq. lia.
  - apply (f_equal String.length) in Heq. simpl in Heq.
    rewrite string_length_append in Heq. lia.
  - injection Heq as -> Heq. f_equal. exact (IH t Heq).
Qed.

Lemma to_int_not_nil (z : Z) :
  Z.to_int z <> Decimal.Pos Decimal.Nil /\ Z.to_int z <> Decimal.Neg Decimal.Nil.
Proof.
  destruct z as [|p|p]; simpl; split; try discriminate;
    intros Heq; injection Heq as Heq;
    exact (DecimalPos.Unsigned.to_uint_nonnil p Heq).
Qed.

Lemma to_string_inj (a b : Z) : to_string a = to_string b -> a = b.
Proof.
  unfold to_string. intros Heq.
  apply (f_equal NilZero.int_of_string) in Heq.
  destruct (to_int_not_nil a) as [Ha1 Ha2].
  destruct (to_int_not_nil b) as [Hb1 Hb2].
  rewrite !NilZero.isi in Heq by assumption.
  injection Heq as Heq.
  apply (f_equal Z.of_int) in Heq.
  rewrite !DecimalZ.of_to in Heq. exact Heq.
Qed.

(** X1: for [n <= 0] the loop of [gen_vec_string] never runs and the vector
    returned is empty. *)
Theorem gen_vec_string_nonpositive (fuel : nat) (n : Z) (prefix : string) :
  n <= 0 -> (0 < fuel)%nat -> gen_vec_string fuel n prefix = Done [].
Proof.
  intros Hn Hfuel. destruct fuel as [|fuel]; [lia|].
  unfold gen_vec_string. simpl.
  destruct (Z.ltb_spec 0 n) as [Hlt|_]; [lia | reflexivity].
Qed.

Lemma gen_vec_string_nonpositive_witness :
  gen_vec_string 1 (-3) "x" = Done [].
Proof.
  apply (gen_vec_string_nonpositive 1 (-3) "x"); lia.
Defined.

(** X2: the strings of the vector returned by [gen_vec_string] are pairwise
    different. *)
Theorem gen_vec_string_distinct (fuel : nat) (n : Z) (prefix : string) :
  0 <= n <= INT_MAX -> (Z.to_nat n < fuel)%nat ->
  exists vec, gen_vec_string fuel n prefix = Done vec /\ NoDup vec.
Proof.
  intros Hn Hfuel. eexists. split; [apply gen_vec_string_run; assumption|].
  apply Finite.Injective_map_NoDup; [|apply seq_NoDup].
  intros i j Heq.
  apply string_append_inj_l in Heq. simpl in Heq. injection Heq as Heq.
  apply to_string_inj in Heq. lia.
Qed.

Lemma gen_vec_string_distinct_witness :
  exists vec, gen_vec_string 12 11 "x" = Done vec /\ NoDup vec.
Proof.
  apply (gen_vec_string_distinct 12 11 "x").
  - unfold INT_MAX. lia.
  - vm_compute. lia.
Defined.

(** X3: each of [F], [G] and [H] is injective and marks its result with its
    own letter, so results of different stages never coincide; the chain
    [H(G(F(x)))] of main2 is injective, so a final result names its input. *)
Theorem stages_are_injective (x y : string) :
  (F x = F y <-> x = y)
  /\ (G x = G y <-> x = y)
  /\ (H x = H y <-> x = y)
  /\ (H (G (F x)) = H (G (F y)) <-> x = y)
  /\ F x <> G y /\ F x <> H y /\ G x <> H y.
Proof.
  assert (HF : forall a b, F a = F b -> a = b).
  { intros a b Heq. unfold F in Heq. simpl in Heq. injection Heq as Heq.
    exact (string_append_inj_r _ _ _ Heq). }
  assert (HG : forall a b, G a = G b -> a = b).
  { intros a b Heq. unfold G in Heq. simpl in Heq. injection Heq as Heq.
    exact (string_append_inj_r _ _ _ Heq). }
  assert (HH : forall a b, H a = H b -> a = b).
  { intros a b Heq. unfold H in Heq. simpl in Heq. injection Heq as Heq.
    exact (string_append_inj_r _ _ _ Heq). }
  repeat split; try (intros ->; reflexivity); try discriminate; auto.
Qed.

(** X4: the result [H(F(x) + G(z))] of main4 does not name its inputs: two
    different pairs of inputs give the same result, because [sum] joins its
    arguments with a separator that the arguments may contain. *)
Theorem diamond_result_is_ambiguous :
  exists x z x' z',
    (x, z) <> (x', z')
    /\ H (sum (F x) (G z)) = H (sum (F x') (G z')).
Proof.
  exists "a) + G(b"%string, "c"%string, "a"%string, "b) + G(c"%string.
  split; [discriminate | reflexivity].
Qed.

(* ================================================================== *)
(** ** Further properties: the serial references *)

Lemma serial3_body_step (x_vec : list string) (r : nat) (m : machine) :
  (r < length x_vec)%nat ->
  Rounds3.serial_inv x_vec r m ->
  exists m',
    in_round (Main3.serial_body x_vec (Z.of_nat r)) m = Done (tt, m')
    /\ Rounds3.serial_inv x_vec (S r) m'.
Proof.
  intros Hr [Hrounds Hcout].
  destruct m as [bs fs sc co rs cu]. simpl in *.
  unfold Main3.serial_body. run_body.
  eexists. split; [reflexivity|].
  split; cbn [bufs futs sched cout rounds cur].
  - rewrite Hrounds, seq_snoc, map_app. reflexivity.
  - rewrite Hcout, seq_snoc, map_app. reflexivity.
Qed.

Lemma serial3_run (fuel : nat) (oracle : list (list future))
    (x_vec : list string) :
  size x_vec <= UINT_MAX -> (length x_vec < fuel)%nat ->
  run (Main3.serial fuel x_vec) oracle = Done (Rounds3.serial_output x_vec).
Proof.
  intros Hsize Hfuel.
  unfold run, Main3.serial.
  cbv [bind print init_machine].
  cbn [bufs futs sched cout rounds cur].
  match goal with
  | |- context [for_loop _ _ _ _ _ ?m0] =>
      destruct (for_loop_runs
                  (fun i => i <? size x_vec) uint_incr
                  (fun i => in_round (Main3.serial_body x_vec i))
                  (length x_vec) (Rounds3.serial_inv x_vec))
        with (fuel := fuel) (s := m0)
        as (m' & Hrun & [Hrounds Hcout])
  end.
  - intros r Hr. unfold size. apply Z.ltb_lt. lia.
  - unfold size. apply Z.ltb_ge. lia.
  - intros r Hr. apply (uint_incr_below (length x_vec));
      [exact Hsize | assumption].
  - intros r s Hr Hinv. apply serial3_body_step; assumption.
  - exact Hfuel.
  - split; reflexivity.
  - rewrite Hrun. unfold Rounds3.serial_output. rewrite Hrounds, Hcout.
    reflexivity.
Qed.

(** X5: in main3 the value [y] computed in round [i+1] of the parallel run
    is [F(x[i]) + G(F(x[i]))], the value [y_i] the serial run computes for
    index [i]; both runs finish. *)
Theorem parallel3_agrees_with_serial (fuel : nat)
    (oracle : list (list future)) (x_vec : list string) :
  size x_vec + 1 <= UINT_MAX -> (length x_vec + 1 < fuel)%nat ->
  exists par ser,
    run (Main3.parallel fuel x_vec) oracle = Done par
    /\ run (Main3.serial fuel x_vec) oracle = Done ser
    /\ length (out_rounds ser) = length x_vec
    /\ forall i x_i,
         nth_error x_vec i = Some x_i ->
         exists round_p round_s,
           nth_error (out_rounds par) (i + 1) = Some round_p
           /\ nth_error (out_rounds ser) i = Some round_s
           /\ locals "y" round_p = [sum (F x_i) (G (F x_i))]
           /\ locals "y_i" round_s = [sum (F x_i) (G (F x_i))].
Proof.
  intros Hsize Hfuel.
  exists (Rounds3.parallel_output x_vec), (Rounds3.serial_output x_vec).
  split; [apply parallel3_run; assumption|].
  split; [apply serial3_run; lia|].
  split; [simpl; rewrite length_map, length_seq; reflexivity|].
  intros i x_i Hx. destruct (input_inside _ _ _ Hx) as [Hi Hin].
  exists (Rounds3.parallel_round x_vec (i + 1)), (Rounds3.serial_round x_vec i).
  split; [simpl out_rounds; apply nth_error_map_seq; lia|].
  split; [simpl out_rounds; apply nth_error_map_seq; lia|].
  split.
  - replace (i + 1)%nat with (S i) by lia. simpl. unfold Rounds3.final.
    simpl. rewrite Hin. reflexivity.
  - simpl. unfold Rounds3.serial_value. rewrite Hin. reflexivity.
Qed.

Lemma parallel3_agrees_with_serial_witness :
  exists par ser,
    run (Main3.parallel 4 ["x_0"; "x_1"]%string) [[G_future]] = Done par
    /\ run (Main3.serial 4 ["x_0"; "x_1"]%string) [[G_future]] = Done ser
    /\ length (out_rounds ser) = length ["x_0"; "x_1"]%string
    /\ forall i x_i,
         nth_error ["x_0"; "x_1"]%string i = Some x_i ->
         exists round_p round_s,
           nth_error (out_rounds par) (i + 1) = Some round_p
           /\ nth_error (out_rounds ser) i = Some round_s
           /\ locals "y" round_p = [sum (F x_i) (G (F x_i))]
           /\ locals "y_i" round_s = [sum (F x_i) (G (F x_i))].
Proof.
  apply (parallel3_agrees_with_serial 4 [[G_future]] ["x_0"; "x_1"]%string).
  - vm_compute. discriminate.
  - simpl. lia.
Defined.

(** X6: in main4, when [z_vec] is at least as long as [x_vec], the H-result
    of round [i+1] of the parallel run is [H(F(x[i]) + G(z[i]))], the value
    [y_i] the serial run computes for index [i]; both runs finish. *)
Theorem parallel4_agrees_with_serial (fuel : nat)
    (oracle : list (list future)) (x_vec z_vec : list string) :
  size x_vec + 1 <= UINT_MAX -> (length x_vec + 1 < fuel)%nat ->
  (length x_vec <= length z_vec)%nat ->
  exists par ser,
    run (Main4.parallel fuel x_vec z_vec) oracle = Done par
    /\ run (Main4.serial fuel x_vec z_vec) oracle = Done ser
    /\ length (out_rounds ser) = length x_vec
    /\ forall i x_i z_i,
         nth_error x_vec i = Some x_i -> nth_error z_vec i = Some z_i ->
         exists round_p round_s,
           nth_error (out_rounds par) (i + 1) = Some round_p
           /\ nth_error (out_rounds ser) i = Some round_s
           /\ got H_future round_p = [H (sum (F x_i) (G z_i))]
           /\ locals "y_i" round_s = [H (sum (F x_i) (G z_i))].
Proof.
  intros Hsize Hfuel Hlen.
  exists (Rounds4.parallel_output x_vec z_vec),
    (Rounds4.serial_output x_vec z_vec).
  split; [apply parallel4_run; assumption|].
  split; [apply serial4_run; lia|].
  split; [simpl; rewrite length_map, length_seq; reflexivity|].
  intros i x_i z_i Hx Hz.
  destruct (input_inside _ _ _ Hx) as [Hi Hinx].
  destruct (input_inside _ _ _ Hz) as [_ Hinz].
  exists (Rounds4.parallel_round x_vec z_vec (i + 1)),
    (Rounds4.serial_round x_vec z_vec i).
  split; [simpl out_rounds; apply nth_error_map_seq; lia|].
  split; [simpl out_rounds; apply nth_error_map_seq; lia|].
  split.
  - replace (i + 1)%nat with (S i) by lia. simpl. rewrite Hinx, Hinz.
    reflexivity.
  - simpl. unfold Rounds4.serial_value. rewrite Hinx, Hinz. reflexivity.
Qed.

Lemma parallel4_agrees_with_serial_witness :
  exists par ser,
    run (Main4.parallel 4 ["x_0"; "x_1"]%string
           ["z_0"; "z_1"; "z_2"]%string) [[F_future]] = Done par
    /\ run (Main4.serial 4 ["x_0"; "x_1"]%string
              ["z_0"; "z_1"; "z_2"]%string) [[F_future]] = Done ser
    /\ length (out_rounds ser) = length ["x_0"; "x_1"]%string
    /\ forall i x_i z_i,
         nth_error ["x_0"; "x_1"]%string i = Some x_i ->
         nth_error ["z_0"; "z_1"; "z_2"]%string i = Some z_i ->
         exists round_p round_s,
           nth_error (out_rounds par) (i + 1) = Some round_p
           /\ nth_error (out_rounds ser) i = Some round_s
           /\ got H_future round_p = [H (sum (F x_i) (G z_i))]
           /\ locals "y_i" round_s = [H (sum (F x_i) (G z_i))].
Proof.
  apply (parallel4_agrees_with_serial 4 [[F_future]] ["x_0"; "x_1"]%string
           ["z_0"; "z_1"; "z_2"]%string).
  - vm_compute. discriminate.
  - simpl. lia.
  - simpl. lia.
Defined.





(* ================================================================== *)
(** ** Further properties: the rounds of the parallel runs *)

Lemma firstn_map_seq {A} (f : nat -> A) (n m : nat) :
  (n <= m)%nat -> firstn n (map f (seq 0 m)) = map f (seq 0 n).
Proof.
  intros Hnm. rewrite firstn_map. f_equal.
  replace m with (n + (m - n))%nat by lia.
  rewrite seq_app, firstn_app, length_seq, Nat.sub_diag. simpl.
  rewrite app_nil_r. apply firstn_all2. rewrite length_seq. lia.
Qed.

Lemma map_seq_ext {A} (f g : nat -> A) (n : nat) :
  (forall r, (r < n)%nat -> f r = g r) ->
  map f (seq 0 n) = map g (seq 0 n).
Proof.
  intros Hfg. apply map_ext_in. intros r Hr. apply in_seq in Hr.
  apply Hfg. lia.
Qed.

(** A round of main2 depends on the inputs of this round and of the two
    rounds before it only. *)
Lemma parallel_round2_ext (a b : list string) (r : nat) :
  (forall k, (k <= r)%nat -> input a k = input b k) ->
  Rounds2.parallel_round a r = Rounds2.parallel_round b r.
Proof.
  intros Hin.
  unfold Rounds2.parallel_round, Rounds2.line.
  destruct r as [|[|r]]; simpl.
  - rewrite (Hin 0%nat) by lia. reflexivity.
  - rewrite (Hin 0%nat), (Hin 1%nat) by lia. reflexivity.
  - rewrite (Hin r), (Hin (S r)), (Hin (S (S r))) by lia. reflexivity.
Qed.

Lemma line2_ext (a b : list string) (r : nat) :
  (forall k, (k <= r)%nat -> input a k = input b k) ->
  Rounds2.line a r = Rounds2.line b r.
Proof.
  intros Hin. unfold Rounds2.line.
  destruct r as [|[|r]]; simpl.
  - rewrite (Hin 0%nat) by lia. reflexivity.
  - rewrite (Hin 0%nat), (Hin 1%nat) by lia. reflexivity.
  - rewrite (Hin r), (Hin (S r)), (Hin (S (S r))) by lia. reflexivity.
Qed.

(** A round of main4 depends on the inputs of this round and of the round
    before it only. *)
Lemma parallel_round4_ext (x a b : list string) (r : nat) :
  (forall k, (k <= r)%nat -> input a k = input b k) ->
  Rounds4.parallel_round x a r = Rounds4.parallel_round x b r.
Proof.
  intros Hin.
  unfold Rounds4.parallel_round, Rounds4.line.
  destruct r as [|r]; simpl.
  - rewrite (Hin 0%nat) by lia. reflexivity.
  - rewrite (Hin r), (Hin (S r)) by lia. reflexivity.
Qed.

Lemma line4_ext (x a b : list string) (r : nat) :
  (forall k, (k <= r)%nat -> input a k = input b k) ->
  Rounds4.line x a r = Rounds4.line x b r.
Proof.
  intros Hin. unfold Rounds4.line.
  destruct r as [|r]; simpl.
  - rewrite (Hin 0%nat) by lia. reflexivity.
  - rewrite (Hin r), (Hin (S r)) by lia. reflexivity.
Qed.

Lemma input_app_inside (x y : list string) (k : nat) :
  (k < length x)%nat -> input (x ++ y) k = input x k.
Proof. intros Hk. unfold input. apply app_nth1. exact Hk. Qed.

Lemma input_app_sentinel (x : list string) (k : nat) :
  input (x ++ [no_data]) k = input x k.
Proof.
  unfold input.
  destruct (Nat.lt_ge_cases k (length x)) as [Hlt|Hge].
  - apply app_nth1. exact Hlt.
  - rewrite app_nth2 by exact Hge. rewrite (nth_overflow x) by exact Hge.
    destruct (k - length x)%nat as [|[|j]]; reflexivity.
Qed.

Lemma size_app (x y : list string) : size (x ++ y) = size x + size y.
Proof. unfold size. rewrite length_app. lia. Qed.

(** X8: the parallel run of main2 is causal: its first [N] rounds, and the
    lines they print, are the same whatever elements follow the first [N]
    elements of the input. *)
Theorem parallel_rounds_depend_on_prefix (fuel : nat)
    (oracle : list (list future)) (x_vec more : list string) :
  size (x_vec ++ more) + 2 <= UINT_MAX ->
  (length (x_vec ++ more) + 2 < fuel)%nat ->
  exists out_x out_all,
    run (Main2.parallel fuel x_vec) oracle = Done out_x
    /\ run (Main2.parallel fuel (x_vec ++ more)) oracle = Done out_all
    /\ firstn (length x_vec) (out_rounds out_all)
       = firstn (length x_vec) (out_rounds out_x)
    /\ firstn (S (length x_vec)) (out_cout out_all)
       = firstn (S (length x_vec)) (out_cout out_x).
Proof.
  intros Hsize Hfuel.
  rewrite size_app in Hsize. rewrite length_app in Hfuel.
  assert (Hpos : 0 <= size more) by (unfold size; lia).
  exists (Rounds2.parallel_output x_vec),
    (Rounds2.parallel_output (x_vec ++ more)).
  split; [apply parallel2_run; lia|].
  split; [apply parallel2_run; [rewrite size_app | rewrite length_app]; lia|].
  assert (Hround : forall r, (r < length x_vec)%nat ->
            Rounds2.parallel_round (x_vec ++ more) r
            = Rounds2.parallel_round x_vec r).
  { intros r Hr. apply parallel_round2_ext. intros k Hk.
    apply input_app_inside. lia. }
  split.
  - simpl out_rounds. rewrite !firstn_map_seq by (rewrite ?length_app; lia).
    apply map_seq_ext. exact Hround.
  - unfold Rounds2.parallel_output. cbn [out_cout firstn]. f_equal.
    rewrite !firstn_map_seq by (rewrite ?length_app; lia).
    apply map_seq_ext. intros r Hr. f_equal.
    apply line2_ext. intros k Hk. apply input_app_inside. lia.
Qed.

Lemma parallel_rounds_depend_on_prefix_witness :
  exists out_x out_all,
    run (Main2.parallel 6 ["x_0"; "x_1"]%string) [] = Done out_x
    /\ run (Main2.parallel 6 (["x_0"; "x_1"]%string ++ ["x_2"]%string)%list) []
       = Done out_all
    /\ firstn (length ["x_0"; "x_1"]%string) (out_rounds out_all)
       = firstn (length ["x_0"; "x_1"]%string) (out_rounds out_x)
    /\ firstn (S (length ["x_0"; "x_1"]%string)) (out_cout out_all)
       = firstn (S (length ["x_0"; "x_1"]%string)) (out_cout out_x).
Proof.
  apply (parallel_rounds_depend_on_prefix 6 [] ["x_0"; "x_1"]%string
           ["x_2"]%string).
  - vm_compute. discriminate.
  - simpl. lia.
Defined.

(** X9: the sentinel is an ordinary string: an input that ends with an
    element equal to [no_data] runs exactly like the input without it, with
    one more round at the end. *)
Theorem trailing_sentinel_is_end_of_input (fuel : nat)
    (oracle : list (list future)) (x_vec : list string) :
  size x_vec + 3 <= UINT_MAX -> (length x_vec + 3 < fuel)%nat ->
  exists out out',
    run (Main2.parallel fuel x_vec) oracle = Done out
    /\ run (Main2.parallel fuel (x_vec ++ [no_data])) oracle = Done out'
    /\ firstn (length x_vec + 2) (out_rounds out') = out_rounds out
    /\ firstn (length x_vec + 3) (out_cout out') = out_cout out
    /\ length (out_rounds out') = (length x_vec + 3)%nat.
Proof.
  intros Hsize Hfuel.
  exists (Rounds2.parallel_output x_vec),
    (Rounds2.parallel_output (x_vec ++ [no_data])).
  split; [apply parallel2_run; lia|].
  split.
  { apply parallel2_run.
    - rewrite size_app. unfold size at 2. simpl. lia.
    - rewrite length_app. simpl. lia. }
  assert (Hround : forall r,
            Rounds2.parallel_round (x_vec ++ [no_data]) r
            = Rounds2.parallel_round x_vec r).
  { intros r. apply parallel_round2_ext. intros k _.
    apply input_app_sentinel. }
  split; [|split].
  - simpl out_rounds. rewrite length_app. simpl length.
    rewrite firstn_map_seq by lia.
    apply map_seq_ext. intros r _. apply Hround.
  - unfold Rounds2.parallel_output. cbn [out_cout].
    rewrite length_app. simpl length.
    replace (length x_vec + 3)%nat with (S (length x_vec + 2)) by lia.
    cbn [firstn]. f_equal. rewrite firstn_map_seq by lia.
    apply map_seq_ext. intros r _. f_equal.
    apply line2_ext. intros k _. apply input_app_sentinel.
  - simpl out_rounds. rewrite length_map, length_seq, length_app. simpl. lia.
Qed.

Lemma trailing_sentinel_is_end_of_input_witness :
  exists out out',
    run (Main2.parallel 5 ["x_0"]%string) [] = Done out
    /\ run (Main2.parallel 5 (["x_0"]%string ++ [no_data])%list) [] = Done out'
    /\ firstn (length ["x_0"]%string + 2) (out_rounds out') = out_rounds out
    /\ firstn (length ["x_0"]%string + 3) (out_cout out') = out_cout out
    /\ length (out_rounds out') = (length ["x_0"]%string + 3)%nat.
Proof.
  apply (trailing_sentinel_is_end_of_input 5 [] ["x_0"]%string).
  - vm_compute. discriminate.
  - simpl. lia.
Defined.

Lemma string_append_assoc (a b c : string) :
  ((a ++ b) ++ c = a ++ (b ++ c))%string.
Proof.
  induction a as [|x a IH]; simpl; [reflexivity | rewrite IH; reflexivity].
Qed.

(** X10: every round of the parallel run of main2 launches and joins each
    of the three stages exactly once, the fill-up and drain rounds included;
    once the input is used up, [F] is launched on the sentinel. *)
Theorem every_round_runs_all_stages (fuel : nat)
    (oracle : list (list future)) (x_vec : list string) :
  size x_vec + 2 <= UINT_MAX -> (length x_vec + 2 < fuel)%nat ->
  exists out,
    run (Main2.parallel fuel x_vec) oracle = Done out
    /\ (forall round f,
          In round (out_rounds out) ->
          length (launched f round) = 1%nat /\ length (got f round) = 1%nat)
    /\ (forall r round,
          (length x_vec <= r)%nat ->
          nth_error (out_rounds out) r = Some round ->
          launched F_future round = [no_data]
          /\ got F_future round = [F no_data]).
Proof.
  intros Hsize Hfuel.
  exists (Rounds2.parallel_output x_vec).
  split; [apply parallel2_run; assumption|].
  split.
  - intros round f Hin. apply in_map_seq in Hin. destruct Hin as (r & _ & ->).
    destruct f; split; reflexivity.
  - intros r round Hr Hnth. simpl out_rounds in Hnth.
    rewrite nth_error_map in Hnth.
    destruct (nth_error (seq 0 (length x_vec + 2)) r) as [k|] eqn:Hk;
      [|discriminate].
    assert (Hlt : (r < length (seq 0 (length x_vec + 2)))%nat)
      by (apply nth_error_Some; congruence).
    rewrite length_seq in Hlt.
    rewrite (nth_error_nth' _ 0%nat) in Hk by (rewrite length_seq; exact Hlt).
    rewrite seq_nth in Hk by exact Hlt.
    injection Hk as <-. injection Hnth as <-. simpl.
    unfold input. rewrite nth_overflow by exact Hr. split; reflexivity.
Qed.

Lemma every_round_runs_all_stages_witness :
  exists out,
    run (Main2.parallel 4 ["x_0"]%string) [[H_future]] = Done out
    /\ (forall round f,
          In round (out_rounds out) ->
          length (launched f round) = 1%nat /\ length (got f round) = 1%nat)
    /\ (forall r round,
          (length ["x_0"]%string <= r)%nat ->
          nth_error (out_rounds out) r = Some round ->
          launched F_future round = [no_data]
          /\ got F_future round = [F no_data]).
Proof.
  apply (every_round_runs_all_stages 4 [[H_future]] ["x_0"]%string).
  - vm_compute. discriminate.
  - simpl. lia.
Defined.

Lemma parallel2_line_printed (x_vec : list string) (n : nat) :
  (n < length x_vec + 2)%nat ->
  nth_error (out_cout (Rounds2.parallel_output x_vec)) (S n)
  = Some (String.concat "" (Rounds2.line x_vec n)).
Proof.
  intros Hn. unfold Rounds2.parallel_output. cbn [out_cout nth_error].
  apply (nth_error_map_seq
           (fun k => String.concat "" (Rounds2.line x_vec k))).
  exact Hn.
Qed.

(** X11: in the steady state of main2 three elements are in flight: in
    round [r+2] thread 1 computes [F] of [x[r+2]], thread 2 computes [G] of
    [F(x[r+1])] and thread 3 computes [H] of [G(F(x[r]))], and the line
    printed for the round shows these three results. *)
Theorem three_elements_in_flight (fuel : nat) (oracle : list (list future))
    (x_vec : list string) :
  size x_vec + 2 <= UINT_MAX -> (length x_vec + 2 < fuel)%nat ->
  exists out,
    run (Main2.parallel fuel x_vec) oracle = Done out
    /\ forall r a b c,
         nth_error x_vec r = Some a ->
         nth_error x_vec (r + 1) = Some b ->
         nth_error x_vec (r + 2) = Some c ->
         exists round,
           nth_error (out_rounds out) (r + 2) = Some round
           /\ got F_future round = [F c]
           /\ got G_future round = [G (F b)]
           /\ got H_future round = [H (G (F a))]
           /\ nth_error (out_cout out) (r + 3)
              = Some ("Step " ++ to_string (Z.of_nat (r + 2))
                      ++ ":  Thread 1: " ++ F c
                      ++ "  Thread 2: " ++ G (F b)
                      ++ "  Thread 3: " ++ H (G (F a)))%string.
Proof.
  intros Hsize Hfuel.
  exists (Rounds2.parallel_output x_vec).
  split; [apply parallel2_run; assumption|].
  intros r a b c Ha Hb Hc.
  destruct (input_inside _ _ _ Ha) as [_ Hia].
  destruct (input_inside _ _ _ Hb) as [_ Hib].
  destruct (input_inside _ _ _ Hc) as [Hlt Hic].
  exists (Rounds2.parallel_round x_vec (r + 2)).
  split; [simpl out_rounds; apply nth_error_map_seq; lia|].
  replace (r + 3)%nat with (S (r + 2)) by lia.
  rewrite parallel2_line_printed by lia.
  replace (r + 1)%nat with (S r) in Hib by lia.
  replace (r + 2)%nat with (S (S r)) in * by lia.
  split; [simpl; rewrite Hic; reflexivity|].
  split; [simpl; rewrite Hib; reflexivity|].
  split; [simpl; rewrite Hia; reflexivity|].
  f_equal. unfold Rounds2.line, Main2.parallel_line.
  cbn [String.concat F_buffer_at Rounds2.G_buffer_at].
  rewrite Hia, Hib, Hic.
  rewrite !string_append_assoc. reflexivity.
Qed.

Lemma three_elements_in_flight_witness :
  exists out,
    run (Main2.parallel 6 ["x_0"; "x_1"; "x_2"]%string) [[]; [G_future]]
      = Done out
    /\ forall r a b c,
         nth_error ["x_0"; "x_1"; "x_2"]%string r = Some a ->
         nth_error ["x_0"; "x_1"; "x_2"]%string (r + 1) = Some b ->
         nth_error ["x_0"; "x_1"; "x_2"]%string (r + 2) = Some c ->
         exists round,
           nth_error (out_rounds out) (r + 2) = Some round
           /\ got F_future round = [F c]
           /\ got G_future round = [G (F b)]
           /\ got H_future round = [H (G (F a))]
           /\ nth_error (out_cout out) (r + 3)
              = Some ("Step " ++ to_string (Z.of_nat (r + 2))
                      ++ ":  Thread 1: " ++ F c
                      ++ "  Thread 2: " ++ G (F b)
                      ++ "  Thread 3: " ++ H (G (F a)))%string.
Proof.
  apply (three_elements_in_flight 6 [[]; [G_future]]
           ["x_0"; "x_1"; "x_2"]%string).
  - vm_compute. discriminate.
  - simpl. lia.
Defined.



(** X13: the parallel run of main4 looks at one more element of [z_vec]
    than [x_vec] has: in the drain round [G] is launched on [z_vec[N]] when
    it exists, and its result goes into a sum that no later round reads.  The
    elements of [z_vec] after that one play no part in the run. *)
Theorem diamond_drain_round_reads_z (fuel : nat)
    (oracle : list (list future)) (x_vec z_vec : list string) :
  size x_vec + 1 <= UINT_MAX -> (length x_vec + 1 < fuel)%nat ->
  exists out,
    run (Main4.parallel fuel x_vec z_vec) oracle = Done out
    /\ run (Main4.parallel fuel x_vec (firstn (length x_vec + 1) z_vec))
           oracle = Done out
    /\ length (out_rounds out) = (length x_vec + 1)%nat
    /\ forall z_N,
         nth_error z_vec (length x_vec) = Some z_N ->
         exists round,
           nth_error (out_rounds out) (length x_vec) = Some round
           /\ launched F_future round = [no_data]
           /\ launched G_future round = [z_N]
           /\ writes F_G_sum_buffer round = [sum (F no_data) (G z_N)].
Proof.
  intros Hsize Hfuel.
  exists (Rounds4.parallel_output x_vec z_vec).
  split; [apply parallel4_run; assumption|].
  split.
  { rewrite parallel4_run by assumption. f_equal.
    assert (Hin : forall k, (k <= length x_vec)%nat ->
              input (firstn (length x_vec + 1) z_vec) k = input z_vec k).
    { intros k Hk. unfold input. rewrite nth_firstn.
      destruct (Nat.ltb_spec k (length x_vec + 1)) as [_|Hge];
        [reflexivity | lia]. }
    unfold Rounds4.parallel_output. cbv zeta. f_equal.
    - apply map_seq_ext. intros r Hr.
      apply parallel_round4_ext. intros k Hk. apply Hin. lia.
    - f_equal. apply map_seq_ext. intros r Hr. f_equal.
      apply line4_ext. intros k Hk. apply Hin. lia. }
  split; [simpl; rewrite length_map, length_seq; reflexivity|].
  intros z_N Hz. destruct (input_inside _ _ _ Hz) as [_ Hin].
  exists (Rounds4.parallel_round x_vec z_vec (length x_vec)).
  split; [simpl out_rounds; apply nth_error_map_seq; lia|].
  simpl. rewrite Hin. unfold input. rewrite nth_overflow by lia.
  repeat split; reflexivity.
Qed.

Lemma diamond_drain_round_reads_z_witness :
  exists out,
    run (Main4.parallel 4 ["x_0"]%string ["z_0"; "z_1"; "z_2"]%string) []
      = Done out
    /\ run (Main4.parallel 4 ["x_0"]%string
              (firstn (length ["x_0"]%string + 1)
                      ["z_0"; "z_1"; "z_2"]%string)) [] = Done out
    /\ length (out_rounds out) = (length ["x_0"]%string + 1)%nat
    /\ forall z_N,
         nth_error ["z_0"; "z_1"; "z_2"]%string (length ["x_0"]%string)
         = Some z_N ->
         exists round,
           nth_error (out_rounds out) (length ["x_0"]%string) = Some round
           /\ launched F_future round = [no_data]
           /\ launched G_future round = [z_N]
           /\ writes F_G_sum_buffer round = [sum (F no_data) (G z_N)].
Proof.
  apply (diamond_drain_round_reads_z 4 [] ["x_0"]%string
           ["z_0"; "z_1"; "z_2"]%string).
  - vm_compute. discriminate.
  - simpl. lia.
Defined.

(* ================================================================== *)
(** ** Further properties: the range of the loop counter *)

(** The body of the loop of main2 succeeds for every counter value once
    the two buffers are declared. *)
Lemma parallel2_body_total (x_vec : list string) (i : Z) (m : machine)
    (a b : string) :
  0 <= i ->
  bufs m F_buffer = Some a -> bufs m G_buffer = Some b ->
  exists m' a' b',
    in_round (Main2.parallel_body x_vec i) m = Done (tt, m')
    /\ bufs m' F_buffer = Some a' /\ bufs m' G_buffer = Some b'.
Proof.
  intros Hi HF HG.
  rewrite <- (Z2Nat.id i) by exact Hi.
  destruct m as [bs fs sc co rs cu]. simpl in *.
  unfold Main2.parallel_body. run_body.
  do 3 eexists. split; [reflexivity|].
  split; cbn [bufs set_buf buffer_eqb]; reflexivity.
Qed.

Lemma parallel2_loop_diverges (x_vec : list string) (bound : Z) :
  UINT_MAX < bound ->
  forall fuel i m a b,
    0 <= i <= UINT_MAX ->
    bufs m F_buffer = Some a -> bufs m G_buffer = Some b ->
    for_loop fuel (fun i => i <? bound) uint_incr
      (fun i => in_round (Main2.parallel_body x_vec i)) i m = OutOfFuel.
Proof.
  intros Hbound. induction fuel as [|fuel IH]; intros i m a b Hi HF HG.
  - reflexivity.
  - simpl. destruct (Z.ltb_spec i bound) as [_|Hge]; [|lia].
    destruct (parallel2_body_total x_vec i m a b)
      as (m1 & a1 & b1 & Hm1 & HF1 & HG1);
      [lia | assumption | assumption |].
    unfold bind at 1. rewrite Hm1. unfold bind, lift, uint_incr.
    apply (IH _ m1 a1 b1); [|assumption|assumption].
    pose proof (Z.mod_pos_bound (i + 1) (UINT_MAX + 1)) as Hmod.
    unfold UINT_MAX in *. lia.
Qed.

(** X14: the counter of the loop of [parallel] in main2 is a [uint] while
    its bound [x_vec.size() + 2] is a [size_t]: when the bound is larger than
    [UINT_MAX] the counter wraps around before it reaches the bound, and the
    loop does not end, whatever the fuel. *)
Theorem parallel2_needs_counter_range (fuel : nat)
    (oracle : list (list future)) (x_vec : list string) :
  UINT_MAX < size x_vec + 2 -> size x_vec + 2 <= SIZE_MAX ->
  run (Main2.parallel fuel x_vec) oracle = OutOfFuel.
Proof.
  intros Hbig Hsize.
  unfold run, Main2.parallel.
  cbv [bind print declare init_machine].
  cbn [bufs futs sched cout rounds cur].
  assert (Hadd : size_add (size x_vec) 2 = size x_vec + 2).
  { unfold size_add. apply Z.mod_small. unfold size, SIZE_MAX in *. lia. }
  rewrite Hadd.
  rewrite (parallel2_loop_diverges x_vec (size x_vec + 2) Hbig fuel 0 _
             no_data no_data); [reflexivity | unfold UINT_MAX; lia | |];
    reflexivity.
Qed.

Lemma parallel2_needs_counter_range_witness :
  run (Main2.parallel 1000 (repeat ""%string (Z.to_nat UINT_MAX))) []
  = OutOfFuel.
Proof.
  apply (parallel2_needs_counter_range 1000 []
           (repeat ""%string (Z.to_nat UINT_MAX))).
  - unfold size. rewrite repeat_length, Z2Nat.id; unfold UINT_MAX; lia.
  - unfold size. rewrite repeat_length, Z2Nat.id;
      unfold UINT_MAX, SIZE_MAX; lia.
Defined.

(* ================================================================== *)
(** ** Further properties: the programs *)

(** X15: [main] of main2 finishes under every schedule: the serial run has
    10 rounds and the parallel run 12, and for each [i] in [0..9] the
    H-result of round [i+2] of the parallel run is [H(G(F(x_i)))], the value
    the serial run prints for index [i]. *)
Theorem main2_scenario (fuel : nat) (oracle : list (list future)) :
  (12 < fuel)%nat ->
  exists ser par,
    Main2.main fuel oracle = Done (ser, par)
    /\ length (out_rounds ser) = 10%nat
    /\ length (out_rounds par) = 12%nat
    /\ forall i, 0 <= i < 10 ->
         exists round_s round_p,
           nth_error (out_rounds par) (Z.to_nat i + 2) = Some round_p
           /\ got H_future round_p = [H (G (F ("x_" ++ to_string i)))]
           /\ nth_error (out_rounds ser) (Z.to_nat i) = Some round_s
           /\ locals "y_i" round_s = [H (G (F ("x_" ++ to_string i)))].
Proof.
  intros Hfuel.
  unfold Main2.main.
  rewrite gen_vec_string_run by (unfold INT_MAX; simpl; lia).
  change (Z.to_nat 10) with 10%nat.
  set (x_vec := map (fun k => ("x" ++ "_" ++ to_string (Z.of_nat k))%string)
                    (seq 0 10)).
  assert (Hlx : length x_vec = 10%nat) by reflexivity.
  assert (Hx : forall i, 0 <= i < 10 ->
                 input x_vec (Z.to_nat i) = ("x_" ++ to_string i)%string).
  { intros i Hi. unfold x_vec. rewrite input_gen by lia.
    rewrite Z2Nat.id by lia. reflexivity. }
  clearbody x_vec.
  rewrite serial2_run by (unfold size, UINT_MAX; rewrite ?Hlx; simpl; lia).
  rewrite parallel2_run by (unfold size, UINT_MAX; rewrite ?Hlx; simpl; lia).
  exists (Rounds2.serial_output x_vec), (Rounds2.parallel_output x_vec).
  split; [reflexivity|].
  split; [simpl; rewrite length_map, length_seq, Hlx; reflexivity|].
  split; [simpl; rewrite length_map, length_seq, Hlx; reflexivity|].
  intros i Hi.
  exists (Rounds2.serial_round x_vec (Z.to_nat i)),
    (Rounds2.parallel_round x_vec (Z.to_nat i + 2)).
  split; [simpl out_rounds; rewrite Hlx; apply nth_error_map_seq; lia|].
  split.
  { replace (Z.to_nat i + 2)%nat with (S (S (Z.to_nat i))) by lia.
    simpl. rewrite (Hx i Hi). reflexivity. }
  split; [simpl out_rounds; rewrite Hlx; apply nth_error_map_seq; lia|].
  simpl. unfold Rounds2.serial_value. rewrite (Hx i Hi). reflexivity.
Qed.

Lemma main2_scenario_witness :
  exists ser par,
    Main2.main 13 [[F_future]; [G_future; H_future]] = Done (ser, par)
    /\ length (out_rounds ser) = 10%nat
    /\ length (out_rounds par) = 12%nat
    /\ forall i, 0 <= i < 10 ->
         exists round_s round_p,
           nth_error (out_rounds par) (Z.to_nat i + 2) = Some round_p
           /\ got H_future round_p = [H (G (F ("x_" ++ to_string i)))]
           /\ nth_error (out_rounds ser) (Z.to_nat i) = Some round_s
           /\ locals "y_i" round_s = [H (G (F ("x_" ++ to_string i)))].
Proof.
  apply (main2_scenario 13 [[F_future]; [G_future; H_future]]).
  lia.
Defined.

(** X16: [main] of main3 finishes under every schedule: the serial run has
    10 rounds and the parallel run 11, and for each [i] in [0..9] the value
    [y] of round [i+1] of the parallel run is [F(x_i) + G(F(x_i))], the value
    the serial run prints for index [i]. *)
Theorem main3_scenario (fuel : nat) (oracle : list (list future)) :
  (11 < fuel)%nat ->
  exists ser par,
    Main3.main fuel oracle = Done (ser, par)
    /\ length (out_rounds ser) = 10%nat
    /\ length (out_rounds par) = 11%nat
    /\ forall i, 0 <= i < 10 ->
         exists round_s round_p,
           nth_error (out_rounds par) (Z.to_nat i + 1) = Some round_p
           /\ locals "y" round_p
              = [sum (F ("x_" ++ to_string i)) (G (F ("x_" ++ to_string i)))]
           /\ nth_error (out_rounds ser) (Z.to_nat i) = Some round_s
           /\ locals "y_i" round_s
              = [sum (F ("x_" ++ to_string i))
                     (G (F ("x_" ++ to_string i)))].
Proof.
  intros Hfuel.
  unfold Main3.main.
  rewrite gen_vec_string_run by (unfold INT_MAX; simpl; lia).
  change (Z.to_nat 10) with 10%nat.
  set (x_vec := map (fun k => ("x" ++ "_" ++ to_string (Z.of_nat k))%string)
                    (seq 0 10)).
  assert (Hlx : length x_vec = 10%nat) by reflexivity.
  assert (Hx : forall i, 0 <= i < 10 ->
                 input x_vec (Z.to_nat i) = ("x_" ++ to_string i)%string).
  { intros i Hi. unfold x_vec. rewrite input_gen by lia.
    rewrite Z2Nat.id by lia. reflexivity. }
  clearbody x_vec.
  rewrite serial3_run by (unfold size, UINT_MAX; rewrite ?Hlx; simpl; lia).
  rewrite parallel3_run by (unfold size, UINT_MAX; rewrite ?Hlx; simpl; lia).
  exists (Rounds3.serial_output x_vec), (Rounds3.parallel_output x_vec).
  split; [reflexivity|].
  split; [simpl; rewrite length_map, length_seq, Hlx; reflexivity|].
  split; [simpl; rewrite length_map, length_seq, Hlx; reflexivity|].
  intros i Hi.
  exists (Rounds3.serial_round x_vec (Z.to_nat i)),
    (Rounds3.parallel_round x_vec (Z.to_nat i + 1)).
  split; [simpl out_rounds; rewrite Hlx; apply nth_error_map_seq; lia|].
  split.
  { replace (Z.to_nat i + 1)%nat with (S (Z.to_nat i)) by lia.
    simpl. unfold Rounds3.final. simpl. rewrite (Hx i Hi). reflexivity. }
  split; [simpl out_rounds; rewrite Hlx; apply nth_error_map_seq; lia|].
  simpl. unfold Rounds3.serial_value. rewrite (Hx i Hi). reflexivity.
Qed.

Lemma main3_scenario_witness :
  exists ser par,
    Main3.main 12 [[]; [G_future]] = Done (ser, par)
    /\ length (out_rounds ser) = 10%nat
    /\ length (out_rounds par) = 11%nat
    /\ forall i, 0 <= i < 10 ->
         exists round_s round_p,
           nth_error (out_rounds par) (Z.to_nat i + 1) = Some round_p
           /\ locals "y" round_p
              = [sum (F ("x_" ++ to_string i)) (G (F ("x_" ++ to_string i)))]
           /\ nth_error (out_rounds ser) (Z.to_nat i) = Some round_s
           /\ locals "y_i" round_s
              = [sum (F ("x_" ++ to_string i))
                     (G (F ("x_" ++ to_string i)))].
Proof.
  apply (main3_scenario 12 [[]; [G_future]]).
  lia.
Defined.

(** X17: on empty input the serial functions print their header only,
    while the parallel functions still run their [L] extra rounds, with every
    stage working on the sentinel or on results built from it. *)
Theorem empty_input_still_runs_extra_rounds (fuel : nat)
    (oracle : list (list future)) :
  (2 < fuel)%nat ->
  exists ser2 par2 par3 par4,
    run (Main2.serial fuel []) oracle = Done ser2
    /\ run (Main2.parallel fuel []) oracle = Done par2
    /\ run (Main3.parallel fuel []) oracle = Done par3
    /\ run (Main4.parallel fuel [] []) oracle = Done par4
    /\ out_cout ser2 = ["Serial:"%string]
    /\ out_cout par2
       = ["Parallel:";
          "Step 0:  Thread 1: F(--)  Thread 2: G(--)  Thread 3: H(--)";
          "Step 1:  Thread 1: F(--)  Thread 2: G(F(--))  Thread 3: H(G(--))"
         ]%string
    /\ out_cout par3
       = ["Parallel:";
          "Step 0:  Thread 1: F(--)  Thread 2: G(--)  Thread Main: -- + G(--)"
         ]%string
    /\ out_cout par4
       = ["Parallel:";
          "Step 0:  Thread 1: F(--)  Thread 2: G(--)  Thread 3: H(--)"
         ]%string.
Proof.
  intros Hfuel.
  exists (Rounds2.serial_output []), (Rounds2.parallel_output []),
    (Rounds3.parallel_output []), (Rounds4.parallel_output [] []).
  split; [apply serial2_run; [vm_compute; discriminate | simpl; lia]|].
  split; [apply parallel2_run; [vm_compute; discriminate | simpl; lia]|].
  split; [apply parallel3_run; [vm_compute; discriminate | simpl; lia]|].
  split; [apply parallel4_run; [vm_compute; discriminate | simpl; lia]|].
  repeat split; reflexivity.
Qed.

Lemma empty_input_still_runs_extra_rounds_witness :
  exists ser2 par2 par3 par4,
    run (Main2.serial 3 []) [[F_future]] = Done ser2
    /\ run (Main2.parallel 3 []) [[F_future]] = Done par2
    /\ run (Main3.parallel 3 []) [[F_future]] = Done par3
    /\ run (Main4.parallel 3 [] []) [[F_future]] = Done par4
    /\ out_cout ser2 = ["Serial:"%string]
    /\ out_cout par2
       = ["Parallel:";
          "Step 0:  Thread 1: F(--)  Thread 2: G(--)  Thread 3: H(--)";
          "Step 1:  Thread 1: F(--)  Thread 2: G(F(--))  Thread 3: H(G(--))"
         ]%string
    /\ out_cout par3
       = ["Parallel:";
          "Step 0:  Thread 1: F(--)  Thread 2: G(--)  Thread Main: -- + G(--)"
         ]%string
    /\ out_cout par4
       = ["Parallel:";
          "Step 0:  Thread 1: F(--)  Thread 2: G(--)  Thread 3: H(--)"
         ]%string.
Proof.
  apply (empty_input_still_runs_extra_rounds 3 [[F_future]]).
  lia.
Defined.
